(** * SCANOSS Python client: the scan-dispatch engine

    A shallow embedding of [src/scanoss/scanossapi.py] (the REST client with
    its retry loop) and [src/scanoss/threadedscanning.py] (the queue, the
    worker threads and the coordinator), followed by the properties the
    specification states about them.

    Conventions.
    - A Python [int] is a [Z]; a Python [str] is a [string] (its UTF-8
      bytes: the characters the code tests for, the newline and the marker
      [file=], are ASCII, so splitting and searching agree with Python).
    - A value that may be [None] is an [option].
    - The network, the clock, the file system and the thread scheduler are
      the environment: they appear as explicit arguments (oracles and
      schedules), and what the code does to them is logged in the state. *)

From Equations Require Import Equations.
From Stdlib Require Import ZArith Lia DecimalString DecimalZ Ascii String.
From stdpp Require Import base list strings gmap.

Local Open Scope string_scope.
Local Open Scope list_scope.
Local Open Scope Z_scope.

(** ** Python primitives used by the two classes *)

Module Py.

(** Truthiness of a [str]: the empty string is falsy. *)
Definition truthy (s : string) : bool :=
  match s with
  | EmptyString => false
  | String _ _ => true
  end.

(** Truthiness of an optional [str] ([None] is falsy). *)
Definition truthy_opt (o : option string) : bool :=
  match o with
  | Some s => truthy s
  | None => false
  end.

(** [s.startswith(p)] *)
Fixpoint starts_with (p s : string) : bool :=
  match p, s with
  | EmptyString, _ => true
  | String a p', String b s' => Ascii.eqb a b && starts_with p' s'
  | String _ _, EmptyString => false
  end.

(** [p in s] for two strings: a left-to-right search for [p]. *)
Fixpoint contains (p s : string) : bool :=
  starts_with p s ||
  match s with
  | EmptyString => false
  | String _ s' => contains p s'
  end.

(** [s.split(c)] for a one-character separator: every occurrence of the
    separator ends a piece, so the result has one more piece than there
    are separators, and [''.split(c) == ['']]. *)
Fixpoint split (c : ascii) (s : string) : list string :=
  match s with
  | EmptyString => [EmptyString]
  | String a s' =>
      if Ascii.eqb a c then EmptyString :: split c s'
      else match split c s' with
           | piece :: rest => String a piece :: rest
           | [] => [String a EmptyString]
           end
  end.

(** [c.join(pieces)] *)
Fixpoint join (c : ascii) (pieces : list string) : string :=
  match pieces with
  | [] => EmptyString
  | [p] => p
  | p :: rest => p +:+ String c (join c rest)
  end.

(** [str(n)] for an [int]. *)
Definition str_of_int (n : Z) : string := NilZero.string_of_int (Z.to_int n).

Definition newline : ascii := "010"%char.

(** Being a substring, as a proposition. *)
Definition is_substring (p s : string) : Prop :=
  ∃ a b, s = a +:+ p +:+ b.

(** A character does not occur in a string. *)
Fixpoint free_of (c : ascii) (s : string) : Prop :=
  match s with
  | EmptyString => True
  | String a s' => a ≠ c ∧ free_of c s'
  end.

(** [repr(s)] for a [str], as CPython prints it: single quotes unless the
    string has a single quote and no double quote; the quote in use and the
    backslash are escaped, tab, newline and carriage return are written
    [\t], [\n], [\r], other control characters as [\xNN]. Bytes above 127
    (the UTF-8 encoding of non-ASCII characters) are kept as they are. *)
Definition squote : ascii := "039"%char.
Definition dquote : ascii := "034"%char.
Definition backslash : ascii := "092"%char.

Definition hex_digit (n : N) : ascii :=
  match String.get (N.to_nat n) "0123456789abcdef" with
  | Some c => c
  | None => "0"%char
  end.

Definition repr_char (quote c : ascii) : string :=
  let n := N_of_ascii c in
  if Ascii.eqb c quote || Ascii.eqb c backslash then String backslash (String c EmptyString)
  else if (n =? 9)%N then "\t"
  else if (n =? 10)%N then "\n"
  else if (n =? 13)%N then "\r"
  else if (n <? 32)%N || (n =? 127)%N then
    "\x" +:+ String (hex_digit (n / 16)) (String (hex_digit (n mod 16)) EmptyString)
  else String c EmptyString.

Fixpoint concat_map (f : ascii → string) (s : string) : string :=
  match s with
  | EmptyString => EmptyString
  | String c s' => f c +:+ concat_map f s'
  end.

Definition repr (s : string) : string :=
  let quote :=
    if contains (String squote EmptyString) s && negb (contains (String dquote EmptyString) s)
    then dquote else squote in
  String quote (concat_map (repr_char quote) s) +:+ String quote EmptyString.

End Py.

(** ** [scanossapi.py]: the REST client *)

Module ScanossApi.

Definition DEFAULT_URL : string := "https://osskb.org/api/scan/direct".

(** The two module-level constants read the process environment, here the
    oracle [environ] for [os.environ.get]. *)
Definition SCANOSS_SCAN_URL (environ : string → option string) : string :=
  match environ "SCANOSS_SCAN_URL" with
  | Some u => if Py.truthy u then u else DEFAULT_URL
  | None => DEFAULT_URL
  end.

Definition SCANOSS_API_KEY (environ : string → option string) : string :=
  match environ "SCANOSS_API_KEY" with
  | Some k => if Py.truthy k then k else ""
  | None => ""
  end.

(** The fields of a [ScanossApi] object. *)
Record Api := {
  quiet : bool;
  debug : bool;
  trace : bool;
  url : string;
  api_key : option string;
  scan_type : option string;
  sbom_path : option string;
  scan_format : string;
  flags : option string;
  timeout : Z;
  headers : list (string * string);
  sbom : option string
}.

(** [ScanossApi.load_sbom]: [read_file] is the file system ([None] when
    [open] raises, which ends the constructor with that exception). *)
Definition load_sbom (read_file : string → option string) (self : Api) : option Api :=
  if Py.truthy_opt (sbom_path self) then
    let scan_type' :=
      if negb (Py.truthy_opt (scan_type self)) then Some "identify" else scan_type self in
    match read_file (default "" (sbom_path self)) with
    | Some text =>
        Some {| quiet := quiet self; debug := debug self; trace := trace self;
                url := url self; api_key := api_key self; scan_type := scan_type';
                sbom_path := sbom_path self; scan_format := scan_format self;
                flags := flags self; timeout := timeout self;
                headers := headers self; sbom := Some text |}
    | None => None
    end
  else Some self.

(** [ScanossApi.__init__]. *)
Definition __init__ (environ : string → option string) (read_file : string → option string)
    (scan_type sbom_path scan_format flags url api_key : option string)
    (debug trace quiet : bool) (timeout : Z) : option Api :=
  load_sbom read_file
    {| quiet := quiet; debug := debug; trace := trace;
       url := if Py.truthy_opt url then default "" url else SCANOSS_SCAN_URL environ;
       api_key := api_key;
       scan_type := scan_type;
       sbom_path := sbom_path;
       scan_format := if Py.truthy_opt scan_format then default "" scan_format else "plain";
       flags := flags;
       timeout := if timeout >? 5 then timeout else 120;
       headers := if Py.truthy_opt api_key then [("X-Session", default "" api_key)] else [];
       sbom := None |}.

(** *** What the network gives back *)

(** A parsed JSON document ([r.json()]); numbers are kept to integers. *)
#[local] Set Warnings "-register-all".
Inductive Json :=
| JNull
| JBool (b : bool)
| JNum (n : Z)
| JStr (s : string)
| JArr (items : list Json)
| JObj (members : list (string * Json)).
#[local] Set Warnings "register-all".

(** A [requests.Response] as far as [scan] looks at it. [ok] is its truth
    value [bool(r)] (in [requests], false exactly for a status from 400 to
    599); [json] is what [r.json()] does: a document, or the message of the
    exception it raises. *)
Record Response := {
  status_code : Z;
  ok : bool;
  text : string;
  json : string + Json
}.

(** One call of [requests.post]: it raises [Timeout] or [ConnectionError],
    raises something else, or returns ([None] stands for a missing response
    object). *)
Inductive PostOutcome :=
| ConnectionError
| OtherError (msg : string)
| Replied (r : option Response).

(** The request as handed to [requests.post]. *)
Record Request := {
  req_url : string;
  req_files : string * string;
  req_data : list (string * option string);
  req_headers : list (string * string);
  req_timeout : Z
}.

(** The environment of one call of [scan]: the answer to each request (by
    the number of requests sent before it), the value of [uuid.uuid1().hex],
    and whether a file can be opened for writing ([Some msg] is the
    exception [open] raises). *)
Record Env := {
  post : nat → PostOutcome;
  uuid1_hex : string;
  open_error : string → option string
}.

(** What [scan] leaves behind. *)
Record World := {
  requests : list Request;
  slept : list Z;
  clock : Z;
  stderr : list string;
  files : gmap string string
}.

Definition send (rq : Request) (w : World) : World :=
  {| requests := requests w ++ [rq]; slept := slept w; clock := clock w;
     stderr := stderr w; files := files w |}.

(** [time.sleep(d)] *)
Definition sleep (d : Z) (w : World) : World :=
  {| requests := requests w; slept := slept w ++ [d]; clock := clock w + d;
     stderr := stderr w; files := files w |}.

Definition print_stderr (msg : string) (w : World) : World :=
  {| requests := requests w; slept := slept w; clock := clock w;
     stderr := stderr w ++ [msg]; files := files w |}.

(** [open(name, 'w')] followed by the writes: the file is replaced. *)
Definition write_file (name content : string) (w : World) : World :=
  {| requests := requests w; slept := slept w; clock := clock w;
     stderr := stderr w; files := <[name := content]> (files w) |}.

(** [str(scan_files)] for [scan_files = {'file': (name, wfp)}]. *)
Definition str_scan_files (scan_files : string * string) : string :=
  "{" +:+ Py.repr "file" +:+ ": (" +:+ Py.repr (fst scan_files) +:+ ", "
      +:+ Py.repr (snd scan_files) +:+ ")}".

(** Truth value of the variable [r]. *)
Definition truthy_response (r : option Response) : bool :=
  match r with
  | Some r => ok r
  | None => false
  end.

(** How one turn of the retry loop ends. *)
Inductive Control :=
| Continue
| Break
| Raise (msg : string).

(** The body of the [while] loop, entered with [retry] already
    incremented. It gives back the control outcome, the variable [retry],
    the variable [r] and the world. *)
Definition attempt (self : Api) (env : Env) (scan_files : string * string)
    (form_data : list (string * option string)) (retry : Z) (w : World)
    : Control * Z * option Response * World :=
  let rq := {| req_url := url self; req_files := scan_files; req_data := form_data;
               req_headers := headers self; req_timeout := timeout self |} in
  let answer := post env (length (requests w)) in
  let w := send rq w in
  match answer with
  | ConnectionError =>
      if retry >? 5 then
        let w := print_stderr ("ERROR: Timeout/Connection Error POSTing data: "
                               +:+ str_scan_files scan_files) w in
        (Raise ("ERROR: The SCANOSS API request timed out for " +:+ url self), retry, None, w)
      else
        let w := print_stderr ("Warning: Timeout/Connection Error communicating with "
                               +:+ url self +:+ ". Retrying...") w in
        (Continue, retry, None, sleep 5 w)
  | OtherError _ =>
      let w := print_stderr ("ERROR: Exception POSTing data: " +:+ str_scan_files scan_files) w in
      (Raise ("ERROR: The SCANOSS API request failed for " +:+ url self), retry, None, w)
  | Replied r =>
      if negb (truthy_response r) then
        if retry >? 5 then
          (Raise ("ERROR: The SCANOSS API request response object is empty for " +:+ url self),
           retry, r, w)
        else
          let w := print_stderr ("Warning: No response received from " +:+ url self
                                 +:+ ". Retrying...") w in
          (Continue, retry, r, sleep 5 w)
      else
        let code := from_option status_code 0 r in
        if code >=? 400 then
          if retry >? 5 then
            (Raise ("ERROR: The SCANOSS API returned the following error: HTTP "
                    +:+ Py.str_of_int code +:+ ", " +:+ from_option text "" r),
             retry, r, w)
          else
            let w := print_stderr ("Warning: Error response code " +:+ Py.str_of_int code
                                   +:+ " from " +:+ url self +:+ ". Retrying...") w in
            (Continue, retry, r, sleep 5 w)
        else (Break, 6, r, w)
  end.

Definition inspect {A} (a : A) : {b | a = b} := exist _ a eq_refl.

(** [while retry <= 5: retry += 1; ...]: the loop ends with an exception
    ([Some msg]) or falls through ([None]), with the variable [r]. *)
Equations? retry_loop (self : Api) (env : Env) (scan_files : string * string)
    (form_data : list (string * option string)) (retry : Z) (r : option Response) (w : World)
    : option string * option Response * World by wf (Z.to_nat (6 - retry)) lt :=
  retry_loop self env scan_files form_data retry r w with inspect (retry <=? 5) := {
    | exist _ false _ => (None, r, w)
    | exist _ true Hle with inspect (attempt self env scan_files form_data (retry + 1) w) => {
        | exist _ (Continue, retry', r', w') Hat =>
            retry_loop self env scan_files form_data retry' r' w'
        | exist _ (Break, _, r', w') _ => (None, r', w')
        | exist _ (Raise msg, _, r', w') _ => (Some msg, r', w') } }.
Proof.
  assert (retry' = retry + 1) as ->; [| lia].
  unfold attempt in Hat. repeat case_match; congruence.
Qed.

(** *** [ScanossApi.scan] *)

(** What [scan] returns: the text of the reply, or the parsed document. *)
Inductive ScanResponse :=
| Text (s : string)
| Document (j : Json).

(** [r.json()] gives [None] for the document [null]. *)
Definition to_python (j : Json) : option ScanResponse :=
  match j with
  | JNull => None
  | _ => Some (Document j)
  end.

(** A call ends by returning a value (possibly [None]) or by raising. *)
Inductive Outcome :=
| Returned (v : option ScanResponse)
| Raised (msg : string).

(** The dictionary [form_data], in insertion order. *)
Definition build_form_data (self : Api) (context : option string)
    : list (string * option string) :=
  (if Py.truthy_opt (sbom self) then [("type", scan_type self); ("assets", sbom self)] else [])
  ++ (if Py.truthy (scan_format self) then [("format", Some (scan_format self))] else [])
  ++ (if Py.truthy_opt (flags self) then [("flags", flags self)] else [])
  ++ (if Py.truthy_opt context then [("context", context)] else []).

(** Truth value of the argument [scan_id] ([None] and [0] are falsy). *)
Definition truthy_id (scan_id : option Z) : bool :=
  match scan_id with
  | Some n => negb (n =? 0)
  | None => false
  end.

Definition str_of_id (scan_id : option Z) : string :=
  match scan_id with
  | Some n => Py.str_of_int n
  | None => "None"
  end.

Definition bad_json_file (scan_id : option Z) (ctime : Z) : string :=
  if truthy_id scan_id
  then "bad_json-" +:+ str_of_id scan_id +:+ "-" +:+ Py.str_of_int ctime +:+ ".txt"
  else "bad_json-" +:+ Py.str_of_int ctime +:+ ".txt".

Definition nl : string := String Py.newline EmptyString.

(** What the three [f.write] calls put in the diagnostic file. *)
Definition bad_json_content (scan_files : string * string) (body : string) : string :=
  ("---WFP Begin---" +:+ nl +:+ str_scan_files scan_files +:+ nl +:+ "---WFP End---" +:+ nl
     +:+ "---Bad JSON Begin---" +:+ nl)
  +:+ body
  +:+ ("---Bad JSON End---" +:+ nl).

(** The [except] branch after a reply that does not parse. *)
Definition report_bad_json (env : Env) (scan_files : string * string) (scan_id : option Z)
    (body e : string) (w : World) : Outcome * World :=
  let w := print_stderr ("ERROR: The SCANOSS API returned an invalid JSON: " +:+ e) w in
  let ctime := clock w in
  let bad_json_file := bad_json_file scan_id ctime in
  let w := print_stderr ("Ignoring result. Please look in " +:+ String Py.dquote bad_json_file
                         +:+ String Py.dquote " for more details.") w in
  let w :=
    match open_error env bad_json_file with
    | None => write_file bad_json_file (bad_json_content scan_files body) w
    | Some ee =>
        print_stderr ("Warning: Issue writing bad json file - " +:+ bad_json_file
                      +:+ ": " +:+ ee) w
    end in
  (Returned None, w).

(** The part of [scan] after the loop. *)
Definition decode (self : Api) (env : Env) (scan_files : string * string) (scan_id : option Z)
    (r : option Response) (w : World) : Outcome * World :=
  match r with
  | Some resp =>
      if negb (ok resp) then
        (Raised ("ERROR: The SCANOSS API request response object is empty for " +:+ url self), w)
      else if Py.contains "xml" (scan_format self) then (Returned (Some (Text (text resp))), w)
      else
        match json resp with
        | inr json_resp => (Returned (to_python json_resp), w)
        | inl e => report_bad_json env scan_files scan_id (text resp) e w
        end
  | None =>
      (Raised ("ERROR: The SCANOSS API request response object is empty for " +:+ url self), w)
  end.

Definition scan (self : Api) (env : Env) (wfp : string) (context : option string)
    (scan_id : option Z) (w : World) : Outcome * World :=
  let form_data := build_form_data self context in
  let scan_files := (uuid1_hex env +:+ ".wfp", wfp) in
  match retry_loop self env scan_files form_data 0 None w with
  | (Some msg, _, w) => (Raised msg, w)
  | (None, r, w) => decode self env scan_files scan_id r w
  end.

(** A world in which nothing has happened yet. *)
Definition world0 (now : Z) : World :=
  {| requests := []; slept := []; clock := now; stderr := []; files := ∅ |}.

(** *** The words of the retry policy *)

(** The failures the loop retries: a timeout or connection error, an empty
    (falsy) response object, a status of 400 or more. *)
Definition retryable (answer : PostOutcome) : Prop :=
  match answer with
  | ConnectionError => True
  | OtherError _ => False
  | Replied r => truthy_response r = false ∨ 400 ≤ from_option status_code 0 r
  end.

(** A request succeeds with the response [resp]. *)
Definition succeeds (answer : PostOutcome) (resp : Response) : Prop :=
  answer = Replied (Some resp) ∧ ok resp = true ∧ status_code resp < 400.

(** What a successful response is worth to the caller of [scan]. *)
Definition reply_value (self : Api) (resp : Response) : option ScanResponse :=
  if Py.contains "xml" (scan_format self) then Some (Text (text resp))
  else match json resp with
       | inr json_resp => to_python json_resp
       | inl _ => None
       end.

(** The request [scan] hands to [requests.post], the same at every turn of
    the loop. *)
Definition request_of (self : Api) (env : Env) (wfp : string) (context : option string)
    : Request :=
  {| req_url := url self; req_files := (uuid1_hex env +:+ ".wfp", wfp);
     req_data := build_form_data self context; req_headers := headers self;
     req_timeout := timeout self |}.

End ScanossApi.
(** ** [threadedscanning.py]: the queue, the workers and the coordinator *)

Module ThreadedScanning.

Import ScanossApi.

Definition WFP_FILE_START : string := "file=".
Definition MAX_ALLOWED_THREADS : Z := 30.

(** *** [queue.Queue] *)

(** The items waiting (attribute [queue]) and the counter
    [unfinished_tasks] that [put] increments, [task_done] decrements and
    [join] waits on. *)
Record Queue (A : Type) := {
  queue : list A;
  unfinished_tasks : Z
}.
Arguments queue {A} _.
Arguments unfinished_tasks {A} _.

Definition Queue_new {A} : Queue A := {| queue := []; unfinished_tasks := 0 |}.

Definition put {A} (x : A) (q : Queue A) : Queue A :=
  {| queue := queue q ++ [x]; unfinished_tasks := unfinished_tasks q + 1 |}.

(** [get(timeout=5)]: the oldest item, or [None] for the exception
    [queue.Empty] when no item is there. *)
Definition get {A} (q : Queue A) : option (A * Queue A) :=
  match queue q with
  | x :: rest => Some (x, {| queue := rest; unfinished_tasks := unfinished_tasks q |})
  | [] => None
  end.

(** [task_done()]: [None] for the [ValueError] raised when it is called
    more often than there were items. *)
Definition task_done {A} (q : Queue A) : option (Queue A) :=
  let unfinished := unfinished_tasks q - 1 in
  if unfinished <? 0 then None
  else Some {| queue := queue q; unfinished_tasks := unfinished |}.

Definition empty {A} (q : Queue A) : bool :=
  match queue q with
  | [] => true
  | _ :: _ => false
  end.

Definition qsize {A} (q : Queue A) : Z := Z.of_nat (length (queue q)).

(** [join()] returns once [unfinished_tasks] is zero. *)
Definition join_returns {A} (q : Queue A) : bool := unfinished_tasks q =? 0.

(** *** The object *)

(** [progress.bar.Bar]: [next(n)] advances [index] by [n]. *)
Record Bar := {
  bar_max : Z;
  index : Z
}.

Definition next (n : Z) (b : Bar) : Bar := {| bar_max := bar_max b; index := index b + n |}.

(** Where a worker thread stands in [worker_post]. *)
Inductive Pc :=
| NotStarted
| Spawned
| AtLoop
| AtEmpty
| AtGet
| AtScan (wfp : string)
| AtPut (wfp : string) (count : Z) (resp : option ScanResponse)
| AtBar (wfp : string) (count : Z)
| AtDone (wfp : string)
| AtError (wfp : string) (e : string)
| AtErrorDone (wfp : string)
| Finished
| Died (e : string).

(** The fields of a [ThreadedScanning] object; [inputs], [output] and
    [bar] are class attributes, which every method reaches through
    [self]. A thread in [_threads] is kept with its program point. *)
Record Scanning := {
  inputs : Queue string;
  output : Queue ScanResponse;
  bar : option Bar;
  scanapi : Api;
  debug : bool;
  trace : bool;
  quiet : bool;
  nb_threads : Z;
  _isatty : bool;
  _bar_count : Z;
  _errors : bool;
  _stop_event : bool;
  _threads : list Pc
}.

Definition set_inputs (q : Queue string) (o : Scanning) : Scanning :=
  {| inputs := q; output := output o; bar := bar o; scanapi := scanapi o; debug := debug o;
     trace := trace o; quiet := quiet o; nb_threads := nb_threads o; _isatty := _isatty o;
     _bar_count := _bar_count o; _errors := _errors o; _stop_event := _stop_event o;
     _threads := _threads o |}.

Definition set_output (q : Queue ScanResponse) (o : Scanning) : Scanning :=
  {| inputs := inputs o; output := q; bar := bar o; scanapi := scanapi o; debug := debug o;
     trace := trace o; quiet := quiet o; nb_threads := nb_threads o; _isatty := _isatty o;
     _bar_count := _bar_count o; _errors := _errors o; _stop_event := _stop_event o;
     _threads := _threads o |}.

Definition set_bar (b : option Bar) (o : Scanning) : Scanning :=
  {| inputs := inputs o; output := output o; bar := b; scanapi := scanapi o; debug := debug o;
     trace := trace o; quiet := quiet o; nb_threads := nb_threads o; _isatty := _isatty o;
     _bar_count := _bar_count o; _errors := _errors o; _stop_event := _stop_event o;
     _threads := _threads o |}.

Definition set_nb_threads (n : Z) (o : Scanning) : Scanning :=
  {| inputs := inputs o; output := output o; bar := bar o; scanapi := scanapi o; debug := debug o;
     trace := trace o; quiet := quiet o; nb_threads := n; _isatty := _isatty o;
     _bar_count := _bar_count o; _errors := _errors o; _stop_event := _stop_event o;
     _threads := _threads o |}.

Definition set_bar_count (n : Z) (o : Scanning) : Scanning :=
  {| inputs := inputs o; output := output o; bar := bar o; scanapi := scanapi o; debug := debug o;
     trace := trace o; quiet := quiet o; nb_threads := nb_threads o; _isatty := _isatty o;
     _bar_count := n; _errors := _errors o; _stop_event := _stop_event o;
     _threads := _threads o |}.

Definition set_errors (b : bool) (o : Scanning) : Scanning :=
  {| inputs := inputs o; output := output o; bar := bar o; scanapi := scanapi o; debug := debug o;
     trace := trace o; quiet := quiet o; nb_threads := nb_threads o; _isatty := _isatty o;
     _bar_count := _bar_count o; _errors := b; _stop_event := _stop_event o;
     _threads := _threads o |}.

Definition set_stop_event (b : bool) (o : Scanning) : Scanning :=
  {| inputs := inputs o; output := output o; bar := bar o; scanapi := scanapi o; debug := debug o;
     trace := trace o; quiet := quiet o; nb_threads := nb_threads o; _isatty := _isatty o;
     _bar_count := _bar_count o; _errors := _errors o; _stop_event := b;
     _threads := _threads o |}.

Definition set_threads (ts : list Pc) (o : Scanning) : Scanning :=
  {| inputs := inputs o; output := output o; bar := bar o; scanapi := scanapi o; debug := debug o;
     trace := trace o; quiet := quiet o; nb_threads := nb_threads o; _isatty := _isatty o;
     _bar_count := _bar_count o; _errors := _errors o; _stop_event := _stop_event o;
     _threads := ts |}.

(** Where the calling thread stands in [run] and [complete]. *)
Inductive MainPc :=
| Idle
| Sizing (wait : bool)
| Starting (wait : bool) (i n : Z)
| Waiting
| Stopping
| Joining
| Returning
| RunReturned (result : bool).

(** What has happened so far, oldest first; it records, it is never read
    by the code. *)
Inductive Note :=
| Dequeued (tid : nat) (wfp : string)
| Called (tid : nat) (wfp : string) (result : Outcome)
| Stored (tid : nat) (resp : ScanResponse)
| Advanced (tid : nat) (wfp : string) (count : Z)
| MarkedDone (tid : nat) (wfp : string)
| NotMarked (tid : nat) (wfp : string)
| Failed (tid : nat) (wfp : string)
| StartFailed (e : string).

(** The whole system: the object, the calling thread, the world outside
    ([stderr], the clock, the files, the requests sent) and the record of
    what happened. *)
Record System := {
  self : Scanning;
  main : MainPc;
  world : World;
  trail : list Note
}.

Definition on_self (f : Scanning → Scanning) (s : System) : System :=
  {| self := f (self s); main := main s; world := world s; trail := trail s |}.

Definition on_world (f : World → World) (s : System) : System :=
  {| self := self s; main := main s; world := f (world s); trail := trail s |}.

Definition set_main (pc : MainPc) (s : System) : System :=
  {| self := self s; main := pc; world := world s; trail := trail s |}.

Definition note (n : Note) (s : System) : System :=
  {| self := self s; main := main s; world := world s; trail := trail s ++ [n] |}.

(** [print_stderr], [print_msg], [print_debug], [print_trace] *)
Definition print_stderr (msg : string) (s : System) : System :=
  on_world (ScanossApi.print_stderr msg) s.

Definition print_msg (msg : string) (s : System) : System :=
  if negb (quiet (self s)) then print_stderr msg s else s.

Definition print_debug (msg : string) (s : System) : System :=
  if debug (self s) then print_stderr msg s else s.

Definition print_trace (msg : string) (s : System) : System :=
  if trace (self s) then print_stderr msg s else s.

(** [ThreadedScanning.__init__]. The class attributes [inputs], [output]
    and [bar] are not assigned by it: the object sees the ones of the class
    as they are at that moment, here [cls_inputs], [cls_output], [cls_bar].
    [isatty] is [sys.stderr.isatty()]. *)
Definition __init__ (cls_inputs : Queue string) (cls_output : Queue ScanResponse)
    (cls_bar : option Bar) (isatty : bool) (w : World)
    (scanapi : Api) (debug trace quiet : bool) (nb_threads : Z) : System :=
  let s := {| self := {| inputs := cls_inputs; output := cls_output; bar := cls_bar;
                         scanapi := scanapi; debug := debug; trace := trace; quiet := quiet;
                         nb_threads := nb_threads; _isatty := isatty; _bar_count := 0;
                         _errors := false; _stop_event := false; _threads := [] |};
              main := Idle; world := w; trail := [] |} in
  if nb_threads >? MAX_ALLOWED_THREADS then
    let s := print_msg ("Warning: Requested threads too large: " +:+ Py.str_of_int nb_threads
                        +:+ ". Reducing to " +:+ Py.str_of_int MAX_ALLOWED_THREADS) s in
    on_self (set_nb_threads MAX_ALLOWED_THREADS) s
  else s.

(** [ThreadedScanning.__count_files_in_wfp]; the loop over the lines is a
    left fold that carries [count]. *)
Definition __count_files_in_wfp (wfp : option string) : Z :=
  let count := 0 in
  if Py.truthy_opt wfp then
    match wfp with
    | Some w =>
        fold_left
          (fun count line =>
             if Py.contains WFP_FILE_START line then count + 1 else count)
          (Py.split Py.newline w) count
    | None => count
    end
  else count.

(** [create_bar], [complete_bar], [update_bar]; taking the lock cannot fail
    in the model, so the [except] branch of [update_bar] is not there. *)
Definition create_bar (file_count : Z) (o : Scanning) : Scanning :=
  if negb (quiet o) && _isatty o && negb (bool_decide (is_Some (bar o))) then
    set_bar (Some (next (_bar_count o) {| bar_max := file_count; index := 0 |})) o
  else o.

Definition update_bar (amount : Z) (create : bool) (file_count : Z) (o : Scanning) : Scanning :=
  let o :=
    if create && negb (bool_decide (is_Some (bar o))) then create_bar file_count o
    else match bar o with
         | Some b => set_bar (Some (next amount b)) o
         | None => o
         end in
  set_bar_count (_bar_count o + amount) o.

Definition queue_add (wfp : string) (s : System) : System :=
  on_self (fun o => set_inputs (put wfp (inputs o)) o) s.

Definition get_queue_size (s : System) : Z := qsize (inputs (self s)).

Definition responses (s : System) : list ScanResponse := queue (output (self s)).

(** *** The worker: [worker_post], one shared-state access at a time *)

(** Truth value of what [scan] returned ([if resp:]). *)
Definition truthy_json (j : Json) : bool :=
  match j with
  | JNull => false
  | JBool b => b
  | JNum n => negb (n =? 0)
  | JStr s => Py.truthy s
  | JArr [] => false
  | JArr (_ :: _) => true
  | JObj [] => false
  | JObj (_ :: _) => true
  end.

Definition truthy_resp (resp : option ScanResponse) : bool :=
  match resp with
  | Some (Text s) => Py.truthy s
  | Some (Document j) => truthy_json j
  | None => false
  end.

(** [threading.get_ident()] of the thread at position [tid] of [_threads]:
    some non-zero integer, here the position plus one. *)
Definition get_ident (tid : nat) : Z := Z.of_nat tid + 1.

Definition in_brackets (tid : nat) : string := "(" +:+ Py.str_of_int (get_ident tid) +:+ ")".

Definition too_many : string := "task_done() called too many times".

(** One step of the worker [tid] standing at [pc]; [env] is the
    environment of the call of [scan], used when the step is that call.
    [None]: the thread does not run (not started, or ended). *)
Definition worker_step (tid : nat) (env : Env) (pc : Pc) (s : System) : option (Pc * System) :=
  match pc with
  | NotStarted | Finished | Died _ => None
  | Spawned =>
      Some (AtLoop,
            print_trace ("Starting worker " +:+ Py.str_of_int (get_ident tid) +:+ "...") s)
  | AtLoop =>
      if negb (_stop_event (self s)) then Some (AtEmpty, s)
      else Some (Finished, print_trace ("Thread complete " +:+ in_brackets tid +:+ ".") s)
  | AtEmpty =>
      if negb (empty (inputs (self s))) then Some (AtGet, s)
      else Some (AtLoop, on_world (sleep 1) s)
  | AtGet =>
      match get (inputs (self s)) with
      | Some (wfp, q) =>
          let s := on_self (set_inputs q) s in
          let s := note (Dequeued tid wfp) s in
          Some (AtScan wfp,
                print_trace ("Processing input request " +:+ in_brackets tid +:+ "...") s)
      | None =>
          Some (AtLoop,
                print_stderr ("No message available to process " +:+ in_brackets tid
                              +:+ ". Checking again...") s)
      end
  | AtScan wfp =>
      let count := __count_files_in_wfp (Some wfp) in
      let '(result, w) := scan (scanapi (self s)) env wfp None (Some (get_ident tid)) (world s) in
      let s := on_world (fun _ => w) s in
      let s := note (Called tid wfp result) s in
      match result with
      | Returned resp => Some (AtPut wfp count resp, s)
      | Raised e => Some (AtError wfp e, s)
      end
  | AtPut wfp count resp =>
      match resp with
      | Some r =>
          if truthy_resp resp then
            let s := on_self (fun o => set_output (put r (output o)) o) s in
            Some (AtBar wfp count, note (Stored tid r) s)
          else Some (AtBar wfp count, s)
      | None => Some (AtBar wfp count, s)
      end
  | AtBar wfp count =>
      let s := on_self (update_bar count false 0) s in
      Some (AtDone wfp, note (Advanced tid wfp count) s)
  | AtDone wfp =>
      match task_done (inputs (self s)) with
      | Some q =>
          let s := on_self (set_inputs q) s in
          let s := note (MarkedDone tid wfp) s in
          Some (AtLoop, print_trace ("Request complete " +:+ in_brackets tid +:+ ".") s)
      | None => Some (AtError wfp too_many, s)
      end
  | AtError wfp e =>
      let s := print_stderr ("ERROR: Problem encountered running scan: " +:+ e) s in
      let s := on_self (set_errors true) s in
      Some (AtErrorDone wfp, note (Failed tid wfp) s)
  | AtErrorDone wfp =>
      if Py.truthy wfp then
        match task_done (inputs (self s)) with
        | Some q =>
            let s := on_self (set_inputs q) s in
            Some (AtLoop, note (MarkedDone tid wfp) s)
        | None => Some (Died too_many, s)
        end
      else Some (AtLoop, note (NotMarked tid wfp) s)
  end.

(** *** The calling thread: [run] and [complete] *)

(** [run(wait)] is entered. *)
Definition run (wait : bool) (s : System) : System := set_main (Sizing wait) s.

Definition after_start (wait : bool) : MainPc := if wait then Waiting else Returning.

(** One step of the calling thread. [start_error] is the exception, if
    any, that starting a thread raises, used when the step starts one.
    [None]: the thread is blocked in [inputs.join()], or [run] is not
    running. *)
Definition main_step (start_error : option string) (s : System) : option System :=
  match main s with
  | Idle | RunReturned _ => None
  | Sizing wait =>
      let qsize := qsize (inputs (self s)) in
      let s :=
        if qsize <? nb_threads (self s) then
          let s := print_debug ("Input queue (" +:+ Py.str_of_int qsize
                                +:+ ") smaller than requested threads: "
                                +:+ Py.str_of_int (nb_threads (self s))
                                +:+ ". Reducing to queue size.") s in
          on_self (set_nb_threads qsize) s
        else
          print_debug ("Starting " +:+ Py.str_of_int (nb_threads (self s))
                       +:+ " threads to process " +:+ Py.str_of_int qsize
                       +:+ " requests...") s in
      Some (set_main (Starting wait 0 (nb_threads (self s))) s)
  | Starting wait i n =>
      if i <? n then
        match start_error with
        | None =>
            let s := on_self (fun o => set_threads (_threads o ++ [Spawned]) o) s in
            Some (set_main (Starting wait (i + 1) n) s)
        | Some e =>
            let s := on_self (fun o => set_threads (_threads o ++ [NotStarted]) o) s in
            let s := print_stderr ("ERROR: Problem running threaded scanning: " +:+ e) s in
            let s := on_self (set_errors true) s in
            Some (set_main (after_start wait) (note (StartFailed e) s))
        end
      else Some (set_main (after_start wait) s)
  | Waiting =>
      if join_returns (inputs (self s)) then Some (set_main Stopping s) else None
  | Stopping => Some (set_main Joining (on_self (set_stop_event true) s))
  | Joining => Some (set_main Returning s)
  | Returning => Some (set_main (RunReturned (if _errors (self s) then false else true)) s)
  end.

(** *** Schedules *)

(** Who moves next, with what the environment answers to that move. *)
Inductive Event :=
| Main (start_error : option string)
| Work (tid : nat) (env : Env).

Definition step (ev : Event) (s : System) : option System :=
  match ev with
  | Main start_error => main_step start_error s
  | Work tid env =>
      match _threads (self s) !! tid with
      | Some pc =>
          match worker_step tid env pc s with
          | Some (pc', s') => Some (on_self (fun o => set_threads (<[tid := pc']> (_threads o)) o) s')
          | None => None
          end
      | None => None
      end
  end.

(** Running a schedule; [None] when some move of it is not possible. *)
Fixpoint exec (evs : list Event) (s : System) : option System :=
  match evs with
  | [] => Some s
  | ev :: evs =>
      match step ev s with
      | Some s' => exec evs s'
      | None => None
      end
  end.

(** *** Setting a run up *)

(** A new object in a process where the class attributes are untouched:
    both queues new, no bar. *)
Definition fresh (isatty : bool) (w : World) (scanapi : Api) (debug trace quiet : bool)
    (nb_threads : Z) : System :=
  __init__ Queue_new Queue_new None isatty w scanapi debug trace quiet nb_threads.

(** The caller's [queue_add] of each payload in turn. *)
Definition load (wfps : list string) (s : System) : System :=
  fold_left (fun s wfp => queue_add wfp s) wfps s.

(** *** Reading the record of a run *)

Definition dequeued (t : list Note) : list string :=
  flat_map (fun n => match n with Dequeued _ wfp => [wfp] | _ => [] end) t.

(** The payloads [scan] was called with, in the order of the calls. *)
Definition posted (t : list Note) : list string :=
  flat_map (fun n => match n with Called _ wfp _ => [wfp] | _ => [] end) t.

(** The payloads for which [scan] returned (with a result or with
    [None]), and those for which it raised. *)
Definition returned (t : list Note) : list string :=
  flat_map (fun n => match n with Called _ wfp (Returned _) => [wfp] | _ => [] end) t.

Definition raised (t : list Note) : list string :=
  flat_map (fun n => match n with Called _ wfp (Raised _) => [wfp] | _ => [] end) t.

Definition marked_done (t : list Note) : list string :=
  flat_map (fun n => match n with MarkedDone _ wfp => [wfp] | _ => [] end) t.

Definition not_marked (t : list Note) : list string :=
  flat_map (fun n => match n with NotMarked _ wfp => [wfp] | _ => [] end) t.

Definition is_error (n : Note) : bool :=
  match n with
  | Failed _ _ | StartFailed _ => true
  | _ => false
  end.

(** Some worker, or the start of the pool, recorded an error. *)
Definition error_recorded (t : list Note) : bool := existsb is_error t.

Definition stored (t : list Note) : list ScanResponse :=
  flat_map (fun n => match n with Stored _ resp => [resp] | _ => [] end) t.

Definition is_start_failure (n : Note) : bool :=
  match n with
  | StartFailed _ => true
  | _ => false
  end.

(** Starting some thread failed. *)
Definition start_failed (t : list Note) : bool := existsb is_start_failure t.

(** A sum over a list. *)
Definition sumZ {A} (f : A → Z) (l : list A) : Z := foldr (fun x n => f x + n) 0 l.
Global Arguments sumZ : simpl never.

(** Some payload is posted after a worker has recorded an error. *)
Fixpoint posted_after_failure (t : list Note) : bool :=
  match t with
  | [] => false
  | Failed _ _ :: rest =>
      match posted rest with
      | [] => false
      | _ :: _ => true
      end
  | _ :: rest => posted_after_failure rest
  end.

(** The sum of the file counts of a list of payloads. *)
Definition file_count (wfps : list string) : Z :=
  sumZ (fun wfp => __count_files_in_wfp (Some wfp)) wfps.

(** The threads that were started. *)
Definition was_started (pc : Pc) : bool :=
  match pc with
  | NotStarted => false
  | _ => true
  end.

Definition started (ts : list Pc) : list Pc :=
  filter (fun pc => Is_true (was_started pc)) ts.

(** *** What holds in every state of a run *)

(** The payload a thread is about to post, the payload it has taken from
    the queue and not yet marked done, and the file count it has still to
    add to the progress counter. *)
Definition scanning (pc : Pc) : list string :=
  match pc with
  | AtScan wfp => [wfp]
  | _ => []
  end.

Definition holding (pc : Pc) : list string :=
  match pc with
  | AtScan wfp | AtPut wfp _ _ | AtBar wfp _ | AtDone wfp | AtError wfp _ | AtErrorDone wfp =>
      [wfp]
  | _ => []
  end.

Definition owed (pc : Pc) : Z :=
  match pc with
  | AtPut _ count _ | AtBar _ count => count
  | _ => 0
  end.

(** The calling thread has left the loop that starts the threads. *)
Definition past_start (pc : MainPc) : bool :=
  match pc with
  | Idle | Sizing _ | Starting _ _ _ => false
  | _ => true
  end.

(** The size of the pool for the payloads [wfps] and the thread count [nb]
    of the object. *)
Definition pool (wfps : list string) (nb : Z) : Z := Z.min nb (Z.of_nat (length wfps)).

Definition pool_ok (wfps : list string) (nb : Z) (s : System) : Prop :=
  nb_threads (self s) = pool wfps nb
  ∧ Z.of_nat (length (_threads (self s))) ≤ Z.max 0 (pool wfps nb)
  ∧ (start_failed (trail s) = false →
       Z.of_nat (length (_threads (self s))) = Z.max 0 (pool wfps nb)
       ∧ Forall (fun pc => was_started pc = true) (_threads (self s))).

Definition main_ok (wfps : list string) (wait : bool) (nb : Z) (s : System) : Prop :=
  match main s with
  | Idle => False
  | Sizing wait' =>
      wait' = wait ∧ _threads (self s) = [] ∧ nb_threads (self s) = nb ∧ trail s = []
  | Starting wait' i n =>
      wait' = wait ∧ n = pool wfps nb ∧ nb_threads (self s) = n ∧ 0 ≤ i
      ∧ Z.of_nat (length (_threads (self s))) = i ∧ i ≤ Z.max 0 n
      ∧ Forall (fun pc => was_started pc = true) (_threads (self s))
      ∧ start_failed (trail s) = false
  | Waiting => wait = true ∧ pool_ok wfps nb s
  | Stopping | Joining =>
      wait = true ∧ unfinished_tasks (inputs (self s)) = 0 ∧ pool_ok wfps nb s
  | Returning =>
      (wait = true → unfinished_tasks (inputs (self s)) = 0) ∧ pool_ok wfps nb s
  | RunReturned result =>
      (wait = true →
         unfinished_tasks (inputs (self s)) = 0 ∧ result = negb (_errors (self s)))
      ∧ pool_ok wfps nb s
  end.

(** The invariant of a run over the payloads [wfps], entered with [wait]
    on an object whose thread count is [nb]. *)
Record Inv (wfps : list string) (wait : bool) (nb : Z) (s : System) : Prop := {
  inv_queue : wfps = dequeued (trail s) ++ queue (inputs (self s));
  inv_posted : ∀ f : string → Z,
    sumZ f (dequeued (trail s))
    = sumZ f (posted (trail s)) + sumZ (fun pc => sumZ f (scanning pc)) (_threads (self s));
  inv_marked : ∀ f : string → Z,
    sumZ f (dequeued (trail s))
    = sumZ f (marked_done (trail s)) + sumZ f (not_marked (trail s))
      + sumZ (fun pc => sumZ f (holding pc)) (_threads (self s));
  inv_unfinished :
    unfinished_tasks (inputs (self s)) + Z.of_nat (length (marked_done (trail s)))
    = Z.of_nat (length wfps);
  inv_bar :
    _bar_count (self s) + sumZ owed (_threads (self s)) = file_count (returned (trail s));
  inv_errors : _errors (self s) = error_recorded (trail s);
  inv_output : queue (output (self s)) = stored (trail s);
  inv_not_marked : Forall (fun wfp => wfp = EmptyString) (not_marked (trail s));
  inv_main : main_ok wfps wait nb s
}.

(** The step of the line count. *)
Definition count_line (count : Z) (line : string) : Z :=
  if Py.contains WFP_FILE_START line then count + 1 else count.

(** *** The specification's reading of a payload *)

(** [ls] are the newline-separated lines of [w]: [w] is the lines joined
    by newlines and no line contains a newline itself. *)
Definition lines_of (w : string) (ls : list string) : Prop :=
  ls ≠ [] ∧ Forall (Py.free_of Py.newline) ls ∧ w = Py.join Py.newline ls.

(** The number of lines that have the marker [file=] as a substring. *)
Inductive marked_lines : list string → Z → Prop :=
| marked_nil : marked_lines [] 0
| marked_hit l ls n :
    Py.is_substring WFP_FILE_START l → marked_lines ls n →
    marked_lines (l :: ls) (n + 1)
| marked_miss l ls n :
    ¬ Py.is_substring WFP_FILE_START l → marked_lines ls n →
    marked_lines (l :: ls) n.

(** *** Further readings of the record and of the threads *)


(** The result a thread is about to put into [output]. *)
Definition pending (pc : Pc) : list ScanResponse :=
  match pc with
  | AtPut _ _ (Some r) => if truthy_resp (Some r) then [r] else []
  | _ => []
  end.

(** The payloads for which a worker recorded an error. *)
Definition failed (t : list Note) : list string :=
  flat_map (fun n => match n with Failed _ wfp => [wfp] | _ => [] end) t.

(** The payload whose exception a thread is about to handle. *)
Definition erring (pc : Pc) : list string :=
  match pc with
  | AtError wfp _ => [wfp]
  | _ => []
  end.

(** The thread was ended by an exception that left [worker_post]. *)
Definition is_dead (pc : Pc) : bool :=
  match pc with
  | Died _ => true
  | _ => false
  end.

(** The thread has left the loop of [worker_post]. *)
Definition has_finished (pc : Pc) : bool :=
  match pc with
  | Finished => true
  | _ => false
  end.

(** The calling thread is past [_stop_event.set()]. *)
Definition stopped (pc : MainPc) : bool :=
  match pc with
  | Joining | Returning | RunReturned _ => true
  | _ => false
  end.

(** The number of threads that were started. *)
Definition count_started (ts : list Pc) : Z :=
  sumZ (fun pc => if was_started pc then 1 else 0) ts.

(** What holds besides [Inv] in every state of a run entered with [wait]:
    a call that raised is followed by the record of the error, no thread
    dies, the stop event is set by [complete] only, a thread leaves its loop
    only once it is set, and an item is taken only by a started thread. *)
Record Inv2 (wait : bool) (s : System) : Prop := {
  inv_failed : ∀ f : string → Z,
    sumZ f (raised (trail s))
    = sumZ f (failed (trail s)) + sumZ (fun pc => sumZ f (erring pc)) (_threads (self s));
  inv_alive : sumZ (fun pc => if is_dead pc then 1 else 0) (_threads (self s)) = 0;
  inv_stop : _stop_event (self s) = true → wait = true ∧ stopped (main s) = true;
  inv_finished :
    _stop_event (self s) = false
    → sumZ (fun pc => if has_finished pc then 1 else 0) (_threads (self s)) = 0;
  inv_started : dequeued (trail s) ≠ [] → 1 ≤ count_started (_threads (self s))
}.



(** Nothing is left to do: the queue is empty, no thread holds an item and
    [run] has returned. *)
Definition at_rest (s : System) : Prop :=
  queue (inputs (self s)) = []
  ∧ Forall (fun pc => holding pc = []) (_threads (self s))
  ∧ ∃ result, main s = RunReturned result.

(** The requests sent since the world [w0]. *)
Definition sent_since (w0 : World) (s : System) : list Request :=
  drop (length (requests w0)) (requests (world s)).

(** A request of the client [api] for one of the payloads [wfps]. *)
Definition request_for (api : Api) (wfps : list string) (rq : Request) : Prop :=
  req_url rq = url api ∧ req_headers rq = headers api ∧ req_timeout rq = timeout api
  ∧ req_data rq = build_form_data api None ∧ rq.(req_files).2 ∈ wfps.

End ThreadedScanning.
(** ** Concrete objects for the examples *)

Module Fixtures.

Import ScanossApi ThreadedScanning.

(** [ScanossApi(api_key='k')] in an empty environment. *)
Definition api : Api :=
  {| ScanossApi.quiet := false; ScanossApi.debug := false; ScanossApi.trace := false;
     url := DEFAULT_URL; api_key := Some "k"; scan_type := None; sbom_path := None;
     scan_format := "plain"; flags := None; timeout := 120;
     headers := [("X-Session", "k")]; sbom := None |}.

(** A reply that parses, and one that does not. *)
Definition good_reply : Response :=
  {| status_code := 200; ok := true; text := "{'a.c': []}";
     json := inr (JObj [("a.c", JArr [])]) |}.

Definition bad_reply : Response :=
  {| status_code := 200; ok := true; text := "<html>busy</html>";
     json := inl "Expecting value: line 1 column 1 (char 0)" |}.

(** A service that answers at once; one that is unreachable four times and
    then answers; one that is never reachable; one whose reply does not
    parse, with and without a writable directory. *)
Definition service_up : Env :=
  {| post := fun _ => Replied (Some good_reply); uuid1_hex := "0123abcd";
     open_error := fun _ => None |}.

Definition service_flaky : Env :=
  {| post := fun n => if (n <? 4)%nat then ConnectionError else Replied (Some good_reply);
     uuid1_hex := "0123abcd"; open_error := fun _ => None |}.

Definition service_down : Env :=
  {| post := fun _ => ConnectionError; uuid1_hex := "0123abcd";
     open_error := fun _ => None |}.

Definition service_garbled : Env :=
  {| post := fun _ => Replied (Some bad_reply); uuid1_hex := "0123abcd";
     open_error := fun _ => None |}.


(** Two payloads of one file each. *)
Definition payload_a : string := "file=a,1,x.c".
Definition payload_b : string := "file=b,2,y.c".

(** [ThreadedScanning(api, nb_threads=nb)] in a new process, the payloads
    [wfps] added, [run()] entered. *)
Definition start (nb : Z) (wfps : list string) : System :=
  run true (load wfps (fresh false (world0 0) api false false false nb)).

(** Pieces of a schedule for a pool of one thread: the calling thread sizes
    the pool, starts thread 0 and leaves the loop; the thread enters
    [worker_post]; it goes once round its loop with an item whose call
    raises (test the stop event, test the queue, get, scan, record the
    error, mark done or not) or returns (... scan, put, advance the bar,
    mark done); the calling thread passes [join], sets the stop event,
    joins the threads and returns. *)
Definition pool_of_one : list Event := [Main None; Main None; Main None].
Definition enter (tid : nat) : list Event := [Work tid service_up].
Definition item_fails (tid : nat) : list Event := repeat (Work tid service_down) 6.
Definition item_passes (tid : nat) : list Event := repeat (Work tid service_up) 7.
Definition complete : list Event := repeat (Main None) 4.

(** The state a schedule leads to (the state it starts from when it cannot
    be run to its end). *)
Definition outcome (evs : list Event) (s : System) : System := default s (exec evs s).

(** One payload, and the service is down. *)
Definition failing_run : list Event := pool_of_one ++ enter 0 ++ item_fails 0 ++ complete.

(** Two payloads: the service is down for the first and up for the second. *)
Definition mixed_run : list Event :=
  pool_of_one ++ enter 0 ++ item_fails 0 ++ item_passes 0 ++ complete.

(** An empty payload, and the service is down. *)
Definition stuck_run : list Event := pool_of_one ++ enter 0 ++ item_fails 0.

End Fixtures.
(** * Properties *)

(** ** Strings *)

Module PyFacts.

Import Py.

Lemma append_nil (b : string) : EmptyString +:+ b = b.
Proof. reflexivity. Qed.

Lemma append_cons (x : ascii) (a b : string) : String x a +:+ b = String x (a +:+ b).
Proof. reflexivity. Qed.


Lemma append_empty_r (a : string) : a +:+ EmptyString = a.
Proof.
  induction a as [|x a IH]; [reflexivity |].
  rewrite append_cons. f_equal. exact IH.
Qed.

Lemma starts_with_spec (p s : string) :
  starts_with p s = true ↔ ∃ t, s = p +:+ t.
Proof.
  revert s. induction p as [|a p IH]; intros s; simpl.
  - split; [intros _; now exists s | reflexivity].
  - destruct s as [|b s].
    + split; [discriminate | intros [t Ht]; rewrite append_cons in Ht; discriminate].
    + rewrite andb_true_iff, Ascii.eqb_eq, IH. split.
      * intros [-> [t ->]]. now exists t.
      * intros [t Ht]. rewrite append_cons in Ht. injection Ht as -> ->.
        split; [reflexivity | now exists t].
Qed.

Lemma contains_spec (p s : string) :
  contains p s = true ↔ is_substring p s.
Proof.
  unfold is_substring. induction s as [|b s IH].
  - simpl. rewrite orb_false_r, starts_with_spec. split.
    + intros [t Ht]. now exists EmptyString, t.
    + intros [a [t Ht]]. destruct a; [now exists t | rewrite append_cons in Ht; discriminate].
  - cbn [contains]. rewrite orb_true_iff, starts_with_spec, IH. split.
    + intros [[t Ht] | [a [t Ht]]].
      * now exists EmptyString, t.
      * exists (String b a), t. rewrite append_cons. now rewrite Ht.
    + intros [[|x a] [t Ht]].
      * left. now exists t.
      * right. rewrite append_cons in Ht. injection Ht as -> ->. now exists a, t.
Qed.

Lemma split_not_nil (c : ascii) (s : string) : split c s ≠ [].
Proof.
  destruct s as [|a s]; simpl; [discriminate |].
  destruct (Ascii.eqb a c); [discriminate |].
  destruct (split c s); discriminate.
Qed.

Lemma split_free (c : ascii) (l : string) : free_of c l → split c l = [l].
Proof.
  induction l as [|a l IH]; simpl; [reflexivity |].
  intros [Hne Hl]. apply Ascii.eqb_neq in Hne. rewrite Hne, (IH Hl). reflexivity.
Qed.

Lemma split_line (c : ascii) (l rest : string) :
  free_of c l → split c (l +:+ String c rest) = l :: split c rest.
Proof.
  induction l as [|a l IH].
  - intros _. rewrite append_nil. simpl. now rewrite Ascii.eqb_refl.
  - intros [Hne Hl]. apply Ascii.eqb_neq in Hne. rewrite append_cons. simpl.
    rewrite Hne, (IH Hl). reflexivity.
Qed.

(** Splitting undoes joining. *)
Lemma split_join (c : ascii) (ls : list string) :
  ls ≠ [] → Forall (free_of c) ls → split c (join c ls) = ls.
Proof.
  induction ls as [|l ls IH]; [congruence |].
  intros _ Hall. apply Forall_cons in Hall as [Hl Hls].
  destruct ls as [|l' ls].
  - simpl. now apply split_free.
  - change (join c (l :: l' :: ls)) with (l +:+ String c (join c (l' :: ls))).
    rewrite split_line by assumption. f_equal. now apply IH.
Qed.

Lemma split_pieces_free (c : ascii) (s : string) : Forall (free_of c) (split c s).
Proof.
  induction s as [|a s IH]; simpl.
  - repeat constructor.
  - destruct (Ascii.eqb_spec a c) as [->|Hne].
    + constructor; [exact I | exact IH].
    + destruct (split c s) as [|p rest]; [repeat constructor; assumption |].
      apply Forall_cons in IH as [Hp Hrest]. constructor; [now split | exact Hrest].
Qed.

(** Joining undoes splitting. *)
Lemma join_split (c : ascii) (s : string) : join c (split c s) = s.
Proof.
  induction s as [|a s IH]; [reflexivity |]. cbn [split].
  destruct (Ascii.eqb_spec a c) as [->|Hne].
  - pose proof (split_not_nil c s) as Hnil.
    destruct (split c s) as [|p rest]; [congruence |].
    change (join c (EmptyString :: p :: rest)) with (String c (join c (p :: rest))).
    now rewrite IH.
  - pose proof (split_not_nil c s) as Hnil.
    destruct (split c s) as [|p rest]; [congruence |].
    destruct rest as [|q rest]; [simpl in *; now rewrite <- IH |].
    change (join c (String a p :: q :: rest)) with (String a p +:+ String c (join c (q :: rest))).
    rewrite append_cons. f_equal. exact IH.
Qed.

End PyFacts.
(** ** The REST client *)

Module ApiFacts.

Import ScanossApi.

Section Loop.

Variables (self : Api) (env : Env) (scan_files : string * string)
  (form_data : list (string * option string)).

(** The loop, one turn unfolded. *)
Lemma retry_loop_unfold (retry : Z) (r : option Response) (w : World) :
  retry_loop self env scan_files form_data retry r w =
  if retry <=? 5 then
    match attempt self env scan_files form_data (retry + 1) w with
    | (Continue, retry', r', w') => retry_loop self env scan_files form_data retry' r' w'
    | (Break, _, r', w') => (None, r', w')
    | (Raise msg, _, r', w') => (Some msg, r', w')
    end
  else (None, r, w).
Proof.
  funelim (retry_loop self env scan_files form_data retry r w).
  all: repeat match goal with
         | H : (?k <=? 5) = _ |- context [?k <=? 5] => rewrite H
         | H : attempt _ _ _ _ ?k _ = _ |- context [attempt _ _ _ _ ?k _] => rewrite H
         end; reflexivity.
Qed.

(** One turn sends exactly one request and leaves the files alone. *)
Lemma attempt_sends_one (retry : Z) (w : World) :
  ∀ c k r' w', attempt self env scan_files form_data retry w = (c, k, r', w') →
  length (requests w') = S (length (requests w)) ∧ files w' = files w
  ∧ (c = Continue → k = retry).
Proof.
  intros c k r' w' H. unfold attempt in H.
  repeat case_match; inversion H; subst; cbn; rewrite ?length_app; cbn;
    (split; [lia | split; [reflexivity | congruence]]).
Qed.

(** A retryable failure below the cap: a sleep of 5, then the next turn. *)
Lemma attempt_retryable (retry : Z) (w : World) :
  retryable (post env (length (requests w))) → retry ≤ 5 →
  ∃ r' w', attempt self env scan_files form_data retry w = (Continue, retry, r', w')
    ∧ length (requests w') = S (length (requests w))
    ∧ slept w' = slept w ++ [5] ∧ clock w' = clock w + 5 ∧ files w' = files w.
Proof.
  intros Hre Hle. unfold attempt.
  assert ((retry >? 5) = false) as -> by lia.
  destruct (post env (length (requests w))) as [|msg|r]; cbn in Hre; [| done |].
  - eexists _, _. split; [reflexivity |]. cbn. rewrite length_app. cbn.
    repeat split; lia.
  - destruct (truthy_response r) eqn:Hr; cbn.
    + destruct Hre as [Hre | Hre]; [congruence |].
      assert ((from_option status_code 0 r >=? 400) = true) as -> by lia.
      eexists _, _. split; [reflexivity |]. cbn. rewrite length_app. cbn.
      repeat split; lia.
    + eexists _, _. split; [reflexivity |]. cbn. rewrite length_app. cbn.
      repeat split; lia.
Qed.

(** A retryable failure at the cap: the exception, and no sleep. *)
Lemma attempt_exhausted (retry : Z) (w : World) :
  retryable (post env (length (requests w))) → 5 < retry →
  ∃ msg k r' w', attempt self env scan_files form_data retry w = (Raise msg, k, r', w')
    ∧ length (requests w') = S (length (requests w)) ∧ slept w' = slept w.
Proof.
  intros Hre Hlt. unfold attempt.
  assert ((retry >? 5) = true) as -> by lia.
  destruct (post env (length (requests w))) as [|msg|r]; cbn in Hre; [| done |].
  - eexists _, _, _, _. split; [reflexivity |]. cbn. rewrite length_app. cbn. split; [lia | done].
  - destruct (truthy_response r) eqn:Hr; cbn.
    + destruct Hre as [Hre | Hre]; [congruence |].
      assert ((from_option status_code 0 r >=? 400) = true) as -> by lia.
      eexists _, _, _, _. split; [reflexivity |]. cbn. rewrite length_app. cbn. split; [lia | done].
    + eexists _, _, _, _. split; [reflexivity |]. cbn. rewrite length_app. cbn. split; [lia | done].
Qed.

(** A success ends the loop with that response. *)
Lemma attempt_success (retry : Z) (w : World) (resp : Response) :
  succeeds (post env (length (requests w))) resp →
  ∃ w', attempt self env scan_files form_data retry w = (Break, 6, Some resp, w')
    ∧ length (requests w') = S (length (requests w))
    ∧ slept w' = slept w ∧ clock w' = clock w ∧ files w' = files w
    ∧ stderr w' = stderr w.
Proof.
  intros (Hpost & Hok & Hcode). unfold attempt. rewrite Hpost. cbn. rewrite Hok. cbn.
  assert ((status_code resp >=? 400) = false) as -> by lia.
  eexists. split; [reflexivity |]. cbn. rewrite length_app. cbn. repeat split; lia.
Qed.

(** [n] retryable failures in a row, all below the cap. *)
Lemma retry_loop_failures (n : nat) :
  ∀ retry r w,
    retry + Z.of_nat n ≤ 5 →
    (∀ i, (i < n)%nat → retryable (post env (length (requests w) + i))) →
    ∃ r' w',
      retry_loop self env scan_files form_data retry r w
      = retry_loop self env scan_files form_data (retry + Z.of_nat n) r' w'
      ∧ length (requests w') = (length (requests w) + n)%nat
      ∧ slept w' = slept w ++ repeat 5 n
      ∧ clock w' = clock w + 5 * Z.of_nat n
      ∧ files w' = files w.
Proof.
  induction n as [|n IH]; intros retry r w Hle Hfail.
  - exists r, w. rewrite Z.add_0_r, Nat.add_0_r, app_nil_r. repeat split; lia.
  - destruct (attempt_retryable (retry + 1) w) as (r1 & w1 & Hat & Hreq & Hsl & Hck & Hfi).
    { specialize (Hfail 0%nat). rewrite Nat.add_0_r in Hfail. apply Hfail. lia. }
    { lia. }
    destruct (IH (retry + 1) r1 w1) as (r' & w' & Hloop & Hreq' & Hsl' & Hck' & Hfi').
    { lia. }
    { intros i Hi. rewrite Hreq. replace (S (length (requests w)) + i)%nat
        with (length (requests w) + S i)%nat by lia. apply Hfail. lia. }
    exists r', w'. rewrite retry_loop_unfold.
    assert ((retry <=? 5) = true) as -> by lia.
    rewrite Hat, Hloop. split; [f_equal; lia |].
    rewrite Hreq', Hreq, Hsl', Hsl, Hck', Hck, Hfi', Hfi, <- app_assoc.
    repeat split; lia.
Qed.

(** The loop never sends more requests than the cap leaves. *)
Lemma retry_loop_bound (n : nat) :
  ∀ retry r w, 6 - retry ≤ Z.of_nat n →
    ∀ e r' w', retry_loop self env scan_files form_data retry r w = (e, r', w') →
    (length (requests w') ≤ length (requests w) + n)%nat ∧ files w' = files w.
Proof.
  induction n as [|n IH]; intros retry r w Hn e r' w'; rewrite retry_loop_unfold.
  - assert ((retry <=? 5) = false) as -> by lia. intros [= <- <- <-]. split; [lia | done].
  - destruct (retry <=? 5) eqn:Hle; [| intros [= <- <- <-]; split; [lia | done]].
    destruct (attempt self env scan_files form_data (retry + 1) w) as [[[c k] r1] w1] eqn:Hat.
    apply attempt_sends_one in Hat as (Hreq & Hfi & Hk).
    destruct c; [| intros [= <- <- <-]; split; [lia | done] ..].
    rewrite (Hk eq_refl). intros Hloop. apply IH in Hloop as [Hloop Hfi']; [| lia].
    split; [lia | congruence].
Qed.

End Loop.

(** The part after the loop, for a response that is truthy. *)
Lemma decode_ok (self : Api) (env : Env) (scan_files : string * string) (scan_id : option Z)
    (resp : Response) (w : World) :
  ok resp = true →
  ∃ w', decode self env scan_files scan_id (Some resp) w = (Returned (reply_value self resp), w')
    ∧ requests w' = requests w ∧ slept w' = slept w.
Proof.
  intros Hok. unfold decode, reply_value. rewrite Hok. cbn.
  destruct (Py.contains "xml" (scan_format self)); [now exists w |].
  destruct (json resp) as [e | j]; [| now exists w].
  unfold report_bad_json. eexists. split; [reflexivity |].
  destruct (open_error env _); done.
Qed.

(** [n] retryable failures, then a success: the whole call. *)
Lemma scan_after_failures (self : Api) (env : Env) (wfp : string) (context : option string)
    (scan_id : option Z) (w : World) (n : nat) (resp : Response) :
  (n ≤ 5)%nat →
  (∀ i, (i < n)%nat → retryable (post env (length (requests w) + i))) →
  succeeds (post env (length (requests w) + n)) resp →
  ∃ w1,
    scan self env wfp context scan_id w
    = decode self env (uuid1_hex env +:+ ".wfp", wfp) scan_id (Some resp) w1
    ∧ length (requests w1) = (length (requests w) + n + 1)%nat
    ∧ slept w1 = slept w ++ repeat 5 n
    ∧ clock w1 = clock w + 5 * Z.of_nat n
    ∧ files w1 = files w.
Proof.
  intros Hn Hfail Hok. unfold scan.
  set (scan_files := (uuid1_hex env +:+ ".wfp", wfp)).
  set (form_data := build_form_data self context).
  destruct (retry_loop_failures self env scan_files form_data n 0 None w)
    as (r' & w' & Hloop & Hreq & Hsl & Hck & Hfi); [lia | assumption |].
  rewrite <- Hreq in Hok.
  destruct (attempt_success self env scan_files form_data (0 + Z.of_nat n + 1) w' resp Hok)
    as (w1 & Hat & Hreq1 & Hsl1 & Hck1 & Hfi1 & _).
  rewrite Hloop, retry_loop_unfold.
  assert ((0 + Z.of_nat n <=? 5) = true) as -> by lia.
  rewrite Hat. exists w1. split; [reflexivity |].
  rewrite Hreq1, Hsl1, Hck1, Hfi1, Hreq, Hsl, Hck, Hfi. repeat split; lia.
Qed.

(** Six retryable failures: the call raises. *)
Lemma scan_exhausted (self : Api) (env : Env) (wfp : string) (context : option string)
    (scan_id : option Z) (w : World) :
  (∀ i, (i < 6)%nat → retryable (post env (length (requests w) + i))) →
  ∃ msg w1,
    scan self env wfp context scan_id w = (Raised msg, w1)
    ∧ length (requests w1) = (length (requests w) + 6)%nat
    ∧ slept w1 = slept w ++ repeat 5 5.
Proof.
  intros Hfail. unfold scan.
  set (scan_files := (uuid1_hex env +:+ ".wfp", wfp)).
  set (form_data := build_form_data self context).
  destruct (retry_loop_failures self env scan_files form_data 5 0 None w)
    as (r' & w' & Hloop & Hreq & Hsl & _); [lia | intros i Hi; apply Hfail; lia |].
  change (0 + Z.of_nat 5) with 5 in Hloop.
  destruct (attempt_exhausted self env scan_files form_data (5 + 1) w')
    as (msg & k & r1 & w1 & Hat & Hreq1 & Hsl1); [rewrite Hreq; apply Hfail; lia | lia |].
  rewrite Hloop, retry_loop_unfold. change (5 <=? 5) with true. cbv iota.
  rewrite Hat. exists msg, w1. split; [reflexivity |].
  rewrite Hreq1, Hsl1, Hreq, Hsl. split; [lia | reflexivity].
Qed.

(** No call sends more than six requests, and only a reply that does not
    parse can touch the files. *)
Lemma scan_at_most_six (self : Api) (env : Env) (wfp : string) (context : option string)
    (scan_id : option Z) (w : World) :
  (length (requests (scan self env wfp context scan_id w).2) ≤ length (requests w) + 6)%nat.
Proof.
  unfold scan.
  destruct (retry_loop _ _ _ _ _ _ _) as [[e r'] w'] eqn:Hloop.
  apply (retry_loop_bound _ _ _ _ 6) in Hloop as [Hreq _]; [| lia].
  destruct e as [msg|]; [exact Hreq |].
  unfold decode, report_bad_json. repeat case_match; cbn; exact Hreq.
Qed.




(** The constructor keeps a timeout only when it is above 5. *)
Lemma init_timeout environ read_file scan_type sbom_path scan_format flags url api_key
    debug trace quiet (t : Z) (api : Api) :
  __init__ environ read_file scan_type sbom_path scan_format flags url api_key
           debug trace quiet t = Some api →
  timeout api = if t >? 5 then t else 120.
Proof.
  unfold __init__, load_sbom. cbn.
  repeat case_match; intros [= <-]; reflexivity.
Qed.

End ApiFacts.
(** ** The REST client: the shape of a call *)

Module ApiMore.

Import ScanossApi.

(** [str(n)] tells integers apart. *)
Lemma str_of_int_inj (a b : Z) : Py.str_of_int a = Py.str_of_int b → a = b.
Proof.
  unfold Py.str_of_int. intros H.
  assert (Hnil : ∀ z, Z.to_int z ≠ Decimal.Pos Decimal.Nil ∧ Z.to_int z ≠ Decimal.Neg Decimal.Nil).
  { intros z. split; intros Hz; pose proof (f_equal Z.of_int Hz) as Hz';
      rewrite DecimalZ.of_to in Hz'; cbn in Hz'; subst z; discriminate Hz. }
  apply (f_equal NilZero.int_of_string) in H.
  rewrite !NilZero.isi in H by apply Hnil.
  injection H as H. apply (f_equal Z.of_int) in H. now rewrite !DecimalZ.of_to in H.
Qed.

Lemma append_length (a b : string) :
  String.length (a +:+ b) = (String.length a + String.length b)%nat.
Proof.
  induction a as [|x a IH]; [reflexivity |].
  rewrite PyFacts.append_cons. cbn. now rewrite IH.
Qed.

Lemma append_inj_r (a b c : string) : a +:+ c = b +:+ c → a = b.
Proof.
  revert b. induction a as [|x a IH]; intros [|y b] H.
  - reflexivity.
  - apply (f_equal String.length) in H. rewrite PyFacts.append_cons in H.
    rewrite PyFacts.append_nil in H. cbn in H. rewrite append_length in H. lia.
  - apply (f_equal String.length) in H. rewrite PyFacts.append_cons in H.
    rewrite PyFacts.append_nil in H. cbn in H. rewrite append_length in H. lia.
  - rewrite !PyFacts.append_cons in H. injection H as -> H. f_equal. now apply IH.
Qed.

Section Shape.

Variables (self : Api) (env : Env) (wfp : string) (context : option string).

Let scan_files : string * string := (uuid1_hex env +:+ ".wfp", wfp).
Let form_data : list (string * option string) := build_form_data self context.

(** What one turn of the loop does to the world. *)
Lemma attempt_effect (retry : Z) (w : World) c k r' w' :
  attempt self env scan_files form_data retry w = (c, k, r', w') →
  requests w' = requests w ++ [request_of self env wfp context]
  ∧ files w' = files w
  ∧ (c = Continue →
       k = retry ∧ retry ≤ 5 ∧ slept w' = slept w ++ [5] ∧ clock w' = clock w + 5)
  ∧ (c ≠ Continue → slept w' = slept w ∧ clock w' = clock w)
  ∧ (c = Break → ∃ resp, r' = Some resp ∧ succeeds (post env (length (requests w))) resp).
Proof.
  intros H. unfold attempt in H. fold (request_of self env wfp context) in H.
  destruct (post env (length (requests w))) as [|msg|[resp|]];
    cbn in H; repeat case_match; inversion H; subst; cbn;
    (split; [reflexivity |]); (split; [reflexivity |]);
    (split; [intros; try discriminate; repeat split; lia |]);
    (split; [intros; try congruence; split; reflexivity |]);
    intros; try discriminate.
  exists resp. repeat split; try reflexivity; [now destruct (ok resp) | lia].
Qed.

(** Any other exception of [requests.post] ends the call at once. *)
Lemma attempt_other_error (retry : Z) (w : World) (msg : string) :
  post env (length (requests w)) = OtherError msg →
  ∃ k r' w',
    attempt self env scan_files form_data retry w
    = (Raise ("ERROR: The SCANOSS API request failed for " +:+ url self), k, r', w').
Proof. intros H. unfold attempt. rewrite H. eexists _, _, _. reflexivity. Qed.

(** The loop, entered with [retry] at most 5: it sends the same request
    [k] times, at least once and at most [6 - retry] times, sleeps for 5
    after each but the last, and when it ends without an exception the
    variable [r] holds a truthy response with a status below 400. *)
Lemma retry_loop_shape (n : nat) :
  ∀ retry r w e r' w',
    retry ≤ 5 → 6 - retry ≤ Z.of_nat n →
    retry_loop self env scan_files form_data retry r w = (e, r', w') →
    ∃ k : nat,
      (1 ≤ k)%nat ∧ Z.of_nat k ≤ 6 - retry
      ∧ requests w' = requests w ++ repeat (request_of self env wfp context) k
      ∧ slept w' = slept w ++ repeat 5 (k - 1)
      ∧ clock w' = clock w + 5 * Z.of_nat (k - 1)
      ∧ files w' = files w
      ∧ (e = None →
           ∃ resp, r' = Some resp
                   ∧ succeeds (post env (length (requests w) + (k - 1))) resp).
Proof.
  induction n as [|n IH]; intros retry r w e r' w' Hle Hn; [lia |].
  rewrite ApiFacts.retry_loop_unfold.
  assert ((retry <=? 5) = true) as -> by lia.
  destruct (attempt self env scan_files form_data (retry + 1) w) as [[[c k] r1] w1] eqn:Hat.
  apply attempt_effect in Hat as (Hreq & Hfi & Hcont & Hstop & Hbreak).
  destruct c.
  - destruct (Hcont eq_refl) as (-> & Hk & Hsl & Hck). intros Hloop.
    apply IH in Hloop as (j & Hj1 & Hj & Hreq' & Hsl' & Hck' & Hfi' & Hnone); [| lia | lia].
    exists (S j). split; [lia |]. split; [lia |].
    rewrite Hreq', Hreq, Hsl', Hsl, Hck', Hck, Hfi', Hfi, <- !app_assoc.
    replace (S j - 1)%nat with (S (j - 1)) by lia. cbn [repeat app].
    repeat split; try assumption; [lia |].
    intros He. destruct (Hnone He) as (resp & Hr & Hok). exists resp. split; [exact Hr |].
    rewrite Hreq, length_app in Hok. cbn [length] in Hok.
    replace (length (requests w) + S (j - 1))%nat
      with (length (requests w) + 1 + (j - 1))%nat by lia. exact Hok.
  - intros [= <- <- <-]. destruct Hstop as [Hsl Hck]; [discriminate |].
    exists 1%nat. cbn [repeat Nat.sub]. rewrite app_nil_r, Hsl, Hck.
    repeat split; try assumption; try lia. intros _.
    rewrite Nat.add_0_r. now apply Hbreak.
  - intros [= <- <- <-]. destruct Hstop as [Hsl Hck]; [discriminate |].
    exists 1%nat. cbn [repeat Nat.sub]. rewrite app_nil_r, Hsl, Hck.
    repeat split; try assumption; try lia. discriminate.
Qed.

End Shape.

(** The part after the loop sends nothing, does not sleep, and leaves
    every file but the diagnostic one alone. *)
Lemma decode_frame (self : Api) (env : Env) (scan_files : string * string)
    (scan_id : option Z) (r : option Response) (w : World) :
  let result := decode self env scan_files scan_id r w in
  requests result.2 = requests w ∧ slept result.2 = slept w ∧ clock result.2 = clock w
  ∧ (∀ name, files result.2 !! name ≠ files w !! name →
       result.1 = Returned None ∧ name = bad_json_file scan_id (clock w)
       ∧ open_error env name = None)
  ∧ (∀ resp, r = Some resp → ok resp = true → result.1 = Returned (reply_value self resp)).
Proof.
  intros result.
  assert (Hvalue : ∀ resp, r = Some resp → ok resp = true →
                     result.1 = Returned (reply_value self resp)).
  { intros resp -> Hok. subst result. unfold decode, reply_value, report_bad_json.
    rewrite Hok. cbn. repeat case_match; reflexivity. }
  assert (Hsame : ∀ (o : Outcome) (name : string),
            files w !! name ≠ files w !! name →
            o = Returned None ∧ name = bad_json_file scan_id (clock w)
            ∧ open_error env name = None) by (intros o name H; now destruct H).
  cut (requests result.2 = requests w ∧ slept result.2 = slept w ∧ clock result.2 = clock w
       ∧ (∀ name, files result.2 !! name ≠ files w !! name →
            result.1 = Returned None ∧ name = bad_json_file scan_id (clock w)
            ∧ open_error env name = None)).
  { intros (H1 & H2 & H3 & H4). exact (conj H1 (conj H2 (conj H3 (conj H4 Hvalue)))). }
  clear Hvalue. subst result. unfold decode, report_bad_json.
  destruct r as [resp|]; cbn; [| do 3 (split; [done |]); apply Hsame].
  destruct (ok resp); cbn; [| do 3 (split; [done |]); apply Hsame].
  destruct (Py.contains "xml" (scan_format self)); [do 3 (split; [done |]); apply Hsame |].
  destruct (json resp) as [e|j]; [| do 3 (split; [done |]); apply Hsame].
  cbn. destruct (open_error env (bad_json_file scan_id (clock w))) eqn:Hopen; cbn;
    (split; [done |]); (split; [done |]); (split; [done |]).
  - apply Hsame.
  - intros name Hne.
    destruct (decide (name = bad_json_file scan_id (clock w))) as [->|Hn]; [done |].
    rewrite lookup_insert_ne in Hne by congruence. now destruct Hne.
Qed.

(** A whole call. *)
Lemma scan_shape (self : Api) (env : Env) (wfp : string) (context : option string)
    (scan_id : option Z) (w : World) :
  let result := scan self env wfp context scan_id w in
  ∃ k : nat,
    (1 ≤ k ≤ 6)%nat
    ∧ requests result.2 = requests w ++ repeat (request_of self env wfp context) k
    ∧ slept result.2 = slept w ++ repeat 5 (k - 1)
    ∧ clock result.2 = clock w + 5 * Z.of_nat (k - 1)
    ∧ (∀ name, files result.2 !! name ≠ files w !! name →
         result.1 = Returned None ∧ name = bad_json_file scan_id (clock result.2)
         ∧ open_error env name = None)
    ∧ (∀ v, result.1 = Returned v →
         ∃ resp, succeeds (post env (length (requests w) + (k - 1))) resp
                 ∧ v = reply_value self resp).
Proof.
  intros result. subst result. unfold scan.
  destruct (retry_loop _ _ _ _ _ _ _) as [[e r'] w'] eqn:Hloop.
  apply (retry_loop_shape self env wfp context 6) in Hloop
    as (k & Hk1 & Hk6 & Hreq & Hsl & Hck & Hfi & Hnone); [| lia | lia].
  exists k. split; [lia |].
  destruct e as [msg|].
  - cbn. rewrite Hfi. split; [exact Hreq |]. split; [exact Hsl |]. split; [exact Hck |].
    split; [intros n Hne; now destruct Hne | discriminate].
  - destruct (Hnone eq_refl) as (resp & -> & Hok).
    pose proof (decode_frame self env (uuid1_hex env +:+ ".wfp", wfp) scan_id (Some resp) w')
      as Hdec.
    cbv zeta in Hdec. destruct Hdec as (Hreq' & Hsl' & Hck' & Hfiles & Hvalue).
    rewrite Hreq', Hsl', Hck', Hreq, Hsl, Hck.
    split; [reflexivity |]. split; [reflexivity |]. split; [reflexivity |]. split.
    + intros name Hne. rewrite <- Hck. apply Hfiles. now rewrite Hfi.
    + intros v Hv. exists resp. split; [exact Hok |].
      rewrite (Hvalue resp eq_refl (proj1 (proj2 Hok))) in Hv. congruence.
Qed.

(** [n] retried failures and then another exception. *)
Lemma scan_other_error (self : Api) (env : Env) (wfp : string) (context : option string)
    (scan_id : option Z) (w : World) (n : nat) (msg : string) :
  (n ≤ 5)%nat →
  (∀ i, (i < n)%nat → retryable (post env (length (requests w) + i))) →
  post env (length (requests w) + n) = OtherError msg →
  ∃ w1,
    scan self env wfp context scan_id w
    = (Raised ("ERROR: The SCANOSS API request failed for " +:+ url self), w1)
    ∧ length (requests w1) = (length (requests w) + n + 1)%nat
    ∧ slept w1 = slept w ++ repeat 5 n
    ∧ files w1 = files w.
Proof.
  intros Hn Hfail Hother. unfold scan.
  set (scan_files := (uuid1_hex env +:+ ".wfp", wfp)).
  set (form_data := build_form_data self context).
  destruct (ApiFacts.retry_loop_failures self env scan_files form_data n 0 None w)
    as (r' & w' & Hloop & Hreq & Hsl & _ & Hfi); [lia | assumption |].
  rewrite <- Hreq in Hother.
  rewrite Hloop, ApiFacts.retry_loop_unfold.
  assert ((0 + Z.of_nat n <=? 5) = true) as -> by lia.
  unfold attempt. rewrite Hother. eexists. split; [reflexivity |].
  cbn. rewrite length_app, Hreq, Hsl, Hfi. cbn. repeat split; lia.
Qed.

(** *** The constructor *)

Section Init.

Variables (environ : string → option string) (read_file : string → option string)
  (scan_type sbom_path scan_format flags url api_key : option string)
  (debug trace quiet : bool) (t : Z).

Let made : option Api :=
  ScanossApi.__init__ environ read_file scan_type sbom_path scan_format flags url api_key
    debug trace quiet t.

Lemma truthy_not_empty (s : string) : Py.truthy s = true → s ≠ EmptyString.
Proof. now destruct s. Qed.

Lemma init_fails_iff :
  made = None ↔ ∃ path, sbom_path = Some path ∧ path ≠ EmptyString ∧ read_file path = None.
Proof.
  subst made. unfold ScanossApi.__init__, load_sbom. cbn.
  destruct sbom_path as [[|c path]|]; cbn.
  - split; [discriminate | intros (p & [= <-] & Hp & _); congruence].
  - destruct (read_file (String c path)) eqn:Hread.
    + split; [discriminate | intros (p & [= <-] & _ & Hp); congruence].
    + split; [| reflexivity]. intros _. exists (String c path). repeat split; done.
  - split; [discriminate | intros (p & Hp & _); discriminate].
Qed.

Lemma init_fields (api : Api) :
  made = Some api →
  ScanossApi.url api ≠ EmptyString
  ∧ ScanossApi.scan_format api ≠ EmptyString
  ∧ (Py.truthy_opt sbom_path = false →
       sbom api = None ∧ ScanossApi.scan_type api = scan_type)
  ∧ (Py.truthy_opt sbom_path = true →
       sbom api = read_file (default EmptyString sbom_path)
       ∧ Py.truthy_opt (ScanossApi.scan_type api) = true)
  ∧ (headers api = if Py.truthy_opt api_key then [("X-Session", default EmptyString api_key)]
                   else []).
Proof.
  subst made. unfold ScanossApi.__init__, load_sbom. cbn.
  assert (Hurl : (if Py.truthy_opt url then default EmptyString url
                  else SCANOSS_SCAN_URL environ) ≠ EmptyString).
  { destruct url as [[|c u]|]; cbn; try discriminate;
      unfold SCANOSS_SCAN_URL; destruct (environ _) as [[|c e]|]; cbn; discriminate. }
  assert (Hfmt : (if Py.truthy_opt scan_format then default EmptyString scan_format
                  else "plain") ≠ EmptyString).
  { destruct scan_format as [[|c u]|]; cbn; discriminate. }
  destruct (Py.truthy_opt sbom_path) eqn:Hpath.
  - destruct (read_file (default EmptyString sbom_path)) as [text|] eqn:Hread;
      [| discriminate].
    intros [= <-]. cbn. repeat split; try assumption; try discriminate.
    destruct (Py.truthy_opt scan_type) eqn:Hty; cbn; [exact Hty | reflexivity].
  - intros [= <-]. cbn. repeat split; try assumption; try discriminate.
Qed.

End Init.

End ApiMore.
(** ** The worker threads and the coordinator *)

Module ThreadFacts.

Import ScanossApi ThreadedScanning.

(** *** Counting files *)

Lemma count_files_fold (w : string) :
  __count_files_in_wfp (Some w) = fold_left count_line (Py.split Py.newline w) 0.
Proof. destruct w; reflexivity. Qed.

Lemma fold_count_marked (ls : list string) (acc : Z) :
  marked_lines ls (fold_left count_line ls acc - acc).
Proof.
  revert acc. induction ls as [|l ls IH]; intros acc; simpl.
  - replace (acc - acc) with 0 by lia. constructor.
  - unfold count_line at 2. destruct (Py.contains WFP_FILE_START l) eqn:Hl.
    + replace (fold_left count_line ls (acc + 1) - acc)
        with (fold_left count_line ls (acc + 1) - (acc + 1) + 1) by lia.
      apply marked_hit; [now apply PyFacts.contains_spec | apply IH].
    + apply marked_miss; [| apply IH].
      rewrite <- PyFacts.contains_spec. congruence.
Qed.

Lemma marked_lines_functional (ls : list string) (n m : Z) :
  marked_lines ls n → marked_lines ls m → n = m.
Proof.
  intros Hn. revert m. induction Hn as [|l ls n Hl _ IH|l ls n Hl _ IH]; intros m Hm.
  - now inversion Hm.
  - inversion Hm; subst; [f_equal; now apply IH | contradiction].
  - inversion Hm; subst; [contradiction | now apply IH].
Qed.

Lemma marked_lines_nonneg (ls : list string) (n : Z) : marked_lines ls n → 0 ≤ n.
Proof. induction 1; lia. Qed.

Lemma count_files_nonneg (w : string) : 0 ≤ __count_files_in_wfp (Some w).
Proof.
  rewrite count_files_fold.
  pose proof (fold_count_marked (Py.split Py.newline w) 0) as H.
  apply marked_lines_nonneg in H. lia.
Qed.

(** *** Sums over lists *)

Section Sums.

Context {A : Type}.
Implicit Types (f h : A → Z) (l : list A).

Lemma sumZ_nil f : sumZ f [] = 0.
Proof. reflexivity. Qed.

Lemma sumZ_cons f (x : A) l : sumZ f (x :: l) = f x + sumZ f l.
Proof. reflexivity. Qed.

Lemma sumZ_app f l1 l2 : sumZ f (l1 ++ l2) = sumZ f l1 + sumZ f l2.
Proof.
  induction l1 as [|x l1 IH]; [reflexivity |].
  rewrite <- app_comm_cons, !sumZ_cons, IH. lia.
Qed.

Lemma sumZ_insert h l (i : nat) (x y : A) :
  l !! i = Some x → sumZ h (<[i := y]> l) = sumZ h l - h x + h y.
Proof.
  revert i. induction l as [|z l IH]; intros [|i] Hi; try discriminate.
  - injection Hi as ->. change (<[0%nat := y]> (x :: l)) with (y :: l).
    rewrite !sumZ_cons. lia.
  - change (<[S i := y]> (z :: l)) with (z :: <[i := y]> l).
    rewrite !sumZ_cons, (IH i Hi). lia.
Qed.

Lemma sumZ_nonneg h l : (∀ x, 0 ≤ h x) → 0 ≤ sumZ h l.
Proof.
  intros Hh. induction l as [|x l IH]; [reflexivity |].
  rewrite sumZ_cons. specialize (Hh x). lia.
Qed.

Lemma sumZ_lookup_le h l (i : nat) (x : A) :
  (∀ x, 0 ≤ h x) → l !! i = Some x → h x ≤ sumZ h l.
Proof.
  intros Hh Hi.
  assert (sumZ h l = sumZ h (take i l ++ x :: drop (S i) l)) as ->
    by (now rewrite take_drop_middle).
  rewrite sumZ_app, sumZ_cons.
  pose proof (sumZ_nonneg h (take i l) Hh). pose proof (sumZ_nonneg h (drop (S i) l) Hh). lia.
Qed.

Lemma sumZ_one l : sumZ (fun _ => 1) l = Z.of_nat (length l).
Proof.
  induction l as [|x l IH]; [reflexivity |].
  rewrite sumZ_cons, IH. cbn [length]. lia.
Qed.

Lemma sumZ_zero h l : (∀ x, 0 ≤ h x) → sumZ h l = 0 → Forall (fun x => h x = 0) l.
Proof.
  intros Hh. induction l as [|x l IH]; [constructor |].
  rewrite sumZ_cons. intros Hsum. pose proof (Hh x). pose proof (sumZ_nonneg h l Hh).
  constructor; [lia | apply IH; lia].
Qed.

Lemma sumZ_all_zero h l : Forall (fun x => h x = 0) l → sumZ h l = 0.
Proof.
  induction 1 as [|x l Hx _ IH]; [reflexivity |]. rewrite sumZ_cons. lia.
Qed.

End Sums.

(** Two lists with the same sums for every weight are permutations of each
    other. *)
Lemma sumZ_count (w : string) (l : list string) :
  sumZ (fun x => if decide (x = w) then 1 else 0) l = Z.of_nat (count_occ string_dec l w).
Proof.
  induction l as [|x l IH]; [reflexivity |].
  rewrite sumZ_cons, IH. cbn [count_occ].
  destruct (string_dec x w), (decide (x = w)); try contradiction; lia.
Qed.

Lemma sums_Permutation (l1 l2 : list string) :
  (∀ f : string → Z, sumZ f l1 = sumZ f l2) → l1 ≡ₚ l2.
Proof.
  intros H. apply (Permutation_count_occ string_dec). intros w.
  specialize (H (fun x => if decide (x = w) then 1 else 0)).
  rewrite !sumZ_count in H. lia.
Qed.

Lemma sumZ_ext {A} (f g : A → Z) (l : list A) : (∀ x, f x = g x) → sumZ f l = sumZ g l.
Proof.
  intros H. induction l as [|x l IH]; [reflexivity |]. now rewrite !sumZ_cons, H, IH.
Qed.

(** *** Reading the record after one more note *)

Lemma dequeued_snoc t n : dequeued (t ++ [n]) = dequeued t ++ dequeued [n].
Proof. apply flat_map_app. Qed.

Lemma posted_snoc t n : posted (t ++ [n]) = posted t ++ posted [n].
Proof. apply flat_map_app. Qed.

Lemma returned_snoc t n : returned (t ++ [n]) = returned t ++ returned [n].
Proof. apply flat_map_app. Qed.

Lemma raised_snoc t n : raised (t ++ [n]) = raised t ++ raised [n].
Proof. apply flat_map_app. Qed.

Lemma marked_done_snoc t n : marked_done (t ++ [n]) = marked_done t ++ marked_done [n].
Proof. apply flat_map_app. Qed.

Lemma not_marked_snoc t n : not_marked (t ++ [n]) = not_marked t ++ not_marked [n].
Proof. apply flat_map_app. Qed.


Lemma error_recorded_snoc t n : error_recorded (t ++ [n]) = error_recorded t || is_error n.
Proof. unfold error_recorded. rewrite existsb_app. cbn. now rewrite orb_false_r. Qed.

Lemma start_failed_snoc t n : start_failed (t ++ [n]) = start_failed t || is_start_failure n.
Proof. unfold start_failed. rewrite existsb_app. cbn. now rewrite orb_false_r. Qed.

(** A call either returned or raised. *)
Lemma posted_returned_raised (f : string → Z) (t : list Note) :
  sumZ f (posted t) = sumZ f (returned t) + sumZ f (raised t).
Proof.
  induction t as [|n t IH]; [reflexivity |].
  change (n :: t) with ([n] ++ t).
  unfold posted, returned, raised in *. rewrite !flat_map_app, !sumZ_app, IH.
  destruct n as [| ? ? [|] | | | | | |]; cbn; rewrite ?sumZ_cons, ?sumZ_nil; lia.
Qed.

(** *** The start of a run *)

Lemma load_inputs (ws : list string) (s : System) :
  load ws s
  = on_self (set_inputs {| queue := queue (inputs (self s)) ++ ws;
                           unfinished_tasks := unfinished_tasks (inputs (self s))
                                               + Z.of_nat (length ws) |}) s.
Proof.
  revert s. induction ws as [|w ws IH]; intros s.
  - destruct s as [[[q u] ? ? ? ? ? ? ? ? ? ? ? ?] ? ? ?]. cbn.
    unfold on_self, set_inputs. cbn. now rewrite app_nil_r, Z.add_0_r.
  - cbn [load fold_left]. fold (load ws (queue_add w s)). rewrite IH.
    destruct s as [[[q u] ? ? ? ? ? ? ? ? ? ? ? ?] ? ? ?]. cbn.
    unfold on_self, set_inputs, put. cbn. rewrite <- app_assoc. cbn.
    do 3 f_equal. lia.
Qed.

Lemma fresh_nb_threads isatty w api debug trace quiet t :
  nb_threads (self (fresh isatty w api debug trace quiet t)) = Z.min t 30.
Proof.
  unfold fresh, ThreadedScanning.__init__, MAX_ALLOWED_THREADS.
  destruct (t >? 30) eqn:Ht; cbn; [| lia].
  unfold print_msg. cbn. destruct quiet; cbn; lia.
Qed.

Lemma start_Inv isatty w api debug trace quiet t wait ws :
  Inv ws wait (Z.min t 30) (run wait (load ws (fresh isatty w api debug trace quiet t))).
Proof.
  rewrite load_inputs.
  pose proof (fresh_nb_threads isatty w api debug trace quiet t) as Hnb.
  unfold fresh, ThreadedScanning.__init__ in *.
  destruct (t >? MAX_ALLOWED_THREADS); unfold print_msg in *; cbn in *;
    destruct quiet; cbn in *; (split; cbn; try done; try (intros; lia)).
Qed.

(** *** The invariant is kept *)

(** The counter of the queue counts the items waiting, the items held by
    a thread, and the items dropped without being marked done. *)
Lemma Inv_unfinished ws wait nb s :
  Inv ws wait nb s →
  unfinished_tasks (inputs (self s))
  = Z.of_nat (length (queue (inputs (self s))))
    + Z.of_nat (length (not_marked (trail s)))
    + sumZ (fun pc => Z.of_nat (length (holding pc))) (_threads (self s)).
Proof.
  intros HI. pose proof (inv_queue _ _ _ _ HI) as Hq.
  pose proof (inv_marked _ _ _ _ HI (fun _ => 1)) as Hm.
  pose proof (inv_unfinished _ _ _ _ HI) as Hu.
  rewrite !sumZ_one in Hm.
  rewrite (sumZ_ext _ (fun pc => Z.of_nat (length (holding pc)))) in Hm
    by (intros pc; apply sumZ_one).
  apply (f_equal length) in Hq. rewrite length_app in Hq.
  generalize dependent (sumZ (fun pc => Z.of_nat (length (holding pc))) (_threads (self s))).
  intros; lia.
Qed.

Lemma holding_nonneg (pc : Pc) : 0 ≤ Z.of_nat (length (holding pc)).
Proof. lia. Qed.

(** A thread that holds an item keeps the counter above zero. *)
Lemma Inv_holding ws wait nb s (tid : nat) (pc : Pc) :
  Inv ws wait nb s → _threads (self s) !! tid = Some pc → holding pc ≠ [] →
  1 ≤ unfinished_tasks (inputs (self s)).
Proof.
  intros HI Hpc Hhold. rewrite (Inv_unfinished _ _ _ _ HI).
  pose proof (sumZ_lookup_le (fun pc => Z.of_nat (length (holding pc))) _ tid pc
                holding_nonneg Hpc) as Hle.
  cbv beta in Hle. destruct (holding pc) as [|x l]; [congruence |].
  change (Z.of_nat (length (x :: l))) with (Z.of_nat (S (length l))) in Hle.
  remember (sumZ (fun pc => Z.of_nat (length (holding pc))) (_threads (self s))) as X.
  clear HeqX. lia.
Qed.

(** What a step of a worker leaves alone. *)
Lemma worker_step_frame tid env pc s pc' s1 :
  worker_step tid env pc s = Some (pc', s1) →
  main s1 = main s
  ∧ _threads (self s1) = _threads (self s)
  ∧ nb_threads (self s1) = nb_threads (self s)
  ∧ start_failed (trail s1) = start_failed (trail s)
  ∧ was_started pc' = true
  ∧ (holding pc = [] →
       unfinished_tasks (inputs (self s1)) = unfinished_tasks (inputs (self s))
       ∧ _errors (self s1) = _errors (self s))
  ∧ (_errors (self s) = true → _errors (self s1) = true).
Proof.
  destruct s as [[[q u] out [bar|] api dbg trc qt nbt tty bc err stop ts] m w t].
  all: destruct pc; cbn; unfold print_trace, task_done, get; cbn;
    repeat case_match; intros; simplify_eq; cbn;
    rewrite ?start_failed_snoc, ?orb_false_r; cbn; try done.
Qed.

Ltac inv_field Hpc :=
  unfold file_count; cbn; try (let f := fresh "f" in intros f;
            repeat match goal with H : ∀ _ : string → Z, _ |- _ => specialize (H f) end);
  rewrite ?flat_map_app, ?existsb_app, ?length_app; cbn;
  rewrite ?sumZ_app, ?sumZ_cons, ?sumZ_nil, ?Forall_app, ?app_nil_r, ?orb_false_r;
  repeat (erewrite (sumZ_insert _ _ _ _ _ Hpc));
  cbv beta; cbn [scanning holding owed];
  rewrite ?sumZ_cons, ?sumZ_nil, <- ?app_assoc;
  try lia; try done.

Lemma step_work_Inv ws wait nb tid env s s' :
  Inv ws wait nb s → step (Work tid env) s = Some s' → Inv ws wait nb s'.
Proof.
  intros HI Hstep. cbn in Hstep.
  destruct (_threads (self s) !! tid) as [pc|] eqn:Hpc; [| discriminate].
  destruct (worker_step tid env pc s) as [[pc' s1]|] eqn:Hw; [| discriminate].
  injection Hstep as <-.
  pose proof (Inv_holding _ _ _ _ tid pc HI Hpc) as Hheld.
  pose proof (worker_step_frame _ _ _ _ _ _ Hw) as Hframe.
  destruct HI as [Hq Hp Hm Hu Hb He Ho Hn Hmain].
  destruct s as [[[q u] out [bar|] api dbg trc qt nbt tty bc err stop ts] m w t].
  all: cbn in *.
  all: unfold file_count in *.
  all: assert (Hq' : True → ws = dequeued t ++ q) by (intros _; exact Hq); clear Hq.
  all: destruct pc; cbn in Hw; try discriminate;
    unfold print_trace, task_done, get in Hw; cbn in Hw;
    repeat case_match; simplify_eq; specialize (Hq' I); cbn in Hq';
    rewrite ?app_nil_r in Hq'; cbn.
  all: split; [inv_field Hpc ..|].
  all: try congruence.
  all: try (assert (1 ≤ u) by (apply Hheld; discriminate); lia).
  all: try (split; [assumption | repeat constructor; by destruct wfp]).
  all: unfold main_ok, pool_ok in *; cbn in *;
    rewrite ?length_insert, ?existsb_app; cbn; rewrite ?orb_false_r.
  all: try (assert (1 ≤ u) by (apply Hheld; discriminate)).
  all: destruct m; try done; cbn in *.
  all: try (intuition (try lia; try discriminate; try (by apply Forall_insert)); fail).
  all: destruct Hmain as (_ & -> & _); discriminate.
Qed.

Lemma step_main_Inv ws wait nb start_error s s' :
  Inv ws wait nb s → step (Main start_error) s = Some s' → Inv ws wait nb s'.
Proof.
  intros HI Hstep. cbn in Hstep.
  destruct HI as [Hq Hp Hm Hu Hb He Ho Hn Hmain].
  destruct s as [[[q u] out bar api dbg trc qt nbt tty bc err stop ts] m w t].
  unfold main_step, main_ok, pool_ok, pool, after_start, print_debug, join_returns, qsize,
    file_count in *.
  cbn in *.
  assert (Hq' : True → ws = dequeued t ++ q) by (intros _; exact Hq); clear Hq.
  destruct m; try discriminate; repeat case_match; simplify_eq; specialize (Hq' I);
    cbn in Hq'; cbn.
  all: split; [inv_field Hstep ..|].
  all: unfold main_ok, pool_ok, pool; cbn;
    rewrite ?length_app, ?existsb_app, ?Forall_app; cbn; rewrite ?orb_false_r, ?orb_true_r.
  all: try (apply (f_equal length) in Hq'; rewrite ?length_app in Hq'; cbn in Hq').
  all: try (intuition (try lia; try congruence; try (by repeat constructor)); fail).
  all: try (destruct Hmain as (-> & -> & -> & ->); cbn in *;
            intuition (try lia; try congruence; try (by repeat constructor)); fail).
Qed.

(** Every state a schedule leads to satisfies the invariant. *)
Lemma exec_Inv ws wait nb evs :
  ∀ s s', Inv ws wait nb s → exec evs s = Some s' → Inv ws wait nb s'.
Proof.
  induction evs as [|ev evs IH]; intros s s' HI Hexec; cbn in Hexec.
  - now injection Hexec as <-.
  - destruct (step ev s) as [s1|] eqn:Hstep; [| discriminate].
    apply (IH s1 s'); [| exact Hexec].
    destruct ev as [start_error | tid env].
    + eapply step_main_Inv; eassumption.
    + eapply step_work_Inv; eassumption.
Qed.

(** The states of a run over [ws]. *)
Lemma run_Inv isatty w api debug trace quiet t wait ws evs s :
  exec evs (run wait (load ws (fresh isatty w api debug trace quiet t))) = Some s →
  Inv ws wait (Z.min t 30) s.
Proof. apply exec_Inv, start_Inv. Qed.

(** *** When [run] has returned *)

(** With [wait], nothing is in the queue and no thread holds an item. *)
Lemma returned_idle ws nb s result :
  Inv ws true nb s → main s = RunReturned result →
  queue (inputs (self s)) = []
  ∧ not_marked (trail s) = []
  ∧ Forall (fun pc => holding pc = []) (_threads (self s))
  ∧ result = negb (_errors (self s)).
Proof.
  intros HI Hret. pose proof (Inv_unfinished _ _ _ _ HI) as Hu.
  pose proof (inv_main _ _ _ _ HI) as Hmain. unfold main_ok in Hmain. rewrite Hret in Hmain.
  destruct Hmain as [Hwait _]. destruct (Hwait eq_refl) as [Hzero ->].
  pose proof (sumZ_nonneg (fun pc => Z.of_nat (length (holding pc))) (_threads (self s))
                holding_nonneg) as Hsum.
  assert (Hall : sumZ (fun pc => Z.of_nat (length (holding pc))) (_threads (self s)) = 0).
  { remember (sumZ _ _) as X. clear HeqX. lia. }
  rewrite Hall in Hu.
  apply (sumZ_zero _ _ holding_nonneg) in Hall.
  split; [apply length_zero_iff_nil; lia |].
  split; [apply length_zero_iff_nil; lia |].
  split; [| reflexivity].
  eapply Forall_impl; [exact Hall |]. cbn. intros pc Hpc.
  apply length_zero_iff_nil. lia.
Qed.

Lemma holding_nil_scanning (pc : Pc) : holding pc = [] → scanning pc = [] ∧ owed pc = 0.
Proof. destruct pc; cbn; intros; try discriminate; done. Qed.


(** With [wait], every payload has been taken, posted once and marked
    done once, and the progress counter holds the file counts of the
    payloads whose call returned. *)
Lemma returned_all_done ws nb s result :
  Inv ws true nb s → main s = RunReturned result →
  dequeued (trail s) = ws
  ∧ posted (trail s) ≡ₚ ws
  ∧ marked_done (trail s) ≡ₚ ws
  ∧ _bar_count (self s) = file_count (returned (trail s))
  ∧ result = negb (error_recorded (trail s)).
Proof.
  intros HI Hret.
  destruct (returned_idle _ _ _ _ HI Hret) as (Hq & Hnm & Hhold & ->).
  assert (Hdeq : dequeued (trail s) = ws).
  { pose proof (inv_queue _ _ _ _ HI) as H. now rewrite Hq, app_nil_r in H. }
  assert (Hscan : ∀ f : string → Z,
             sumZ (fun pc => sumZ f (scanning pc)) (_threads (self s)) = 0).
  { intros f. apply sumZ_all_zero. eapply Forall_impl; [exact Hhold |].
    cbn. intros pc Hpc. now rewrite (proj1 (holding_nil_scanning pc Hpc)). }
  assert (Hheld : ∀ f : string → Z,
             sumZ (fun pc => sumZ f (holding pc)) (_threads (self s)) = 0).
  { intros f. apply sumZ_all_zero. eapply Forall_impl; [exact Hhold |].
    cbn. now intros pc ->. }
  assert (Howed : sumZ owed (_threads (self s)) = 0).
  { apply sumZ_all_zero. eapply Forall_impl; [exact Hhold |].
    cbn. intros pc Hpc. apply (holding_nil_scanning pc Hpc). }
  split; [exact Hdeq |]. split; [| split; [| split]].
  - apply sums_Permutation. intros f.
    pose proof (inv_posted _ _ _ _ HI f) as H. rewrite Hscan, Hdeq in H. lia.
  - apply sums_Permutation. intros f.
    pose proof (inv_marked _ _ _ _ HI f) as H. rewrite Hheld, Hnm, Hdeq in H.
    rewrite sumZ_nil in H. lia.
  - pose proof (inv_bar _ _ _ _ HI) as H. rewrite Howed in H. lia.
  - now rewrite (inv_errors _ _ _ _ HI).
Qed.

Lemma file_count_Permutation (l1 l2 : list string) :
  l1 ≡ₚ l2 → file_count l1 = file_count l2.
Proof.
  unfold file_count. induction 1; rewrite ?sumZ_cons; lia.
Qed.

Lemma file_count_nonneg (l : list string) : 0 ≤ file_count l.
Proof. apply sumZ_nonneg. intros w. apply count_files_nonneg. Qed.

(** *** Schedules in two parts; the record only grows *)

Lemma exec_app evs1 evs2 s :
  exec (evs1 ++ evs2) s = exec evs1 s ≫= exec evs2.
Proof.
  revert s. induction evs1 as [|ev evs1 IH]; intros s; cbn; [reflexivity |].
  destruct (step ev s); [apply IH | reflexivity].
Qed.

Lemma step_trail ev s s' : step ev s = Some s' → ∃ l, trail s' = trail s ++ l.
Proof.
  destruct s as [[[q u] out [bar|] api dbg trc qt nbt tty bc err stop ts] m w t].
  all: destruct ev as [start_error | tid env]; cbn.
  1, 3: unfold main_step, after_start, print_debug, join_returns; cbn;
    destruct m; repeat case_match; intros; simplify_eq; cbn;
    (by exists []; rewrite app_nil_r) || (eexists; reflexivity).
  all: destruct (ts !! tid) as [pc|]; [| discriminate];
    destruct pc; cbn; unfold print_trace, task_done, get; cbn;
    repeat case_match; intros; simplify_eq; cbn;
    (by exists []; rewrite app_nil_r) || (eexists; reflexivity).
Qed.

Lemma exec_trail evs : ∀ s s', exec evs s = Some s' → ∃ l, trail s' = trail s ++ l.
Proof.
  induction evs as [|ev evs IH]; intros s s' Hexec; cbn in Hexec.
  - injection Hexec as <-. exists []. now rewrite app_nil_r.
  - destruct (step ev s) as [s1|] eqn:Hstep; [| discriminate].
    destruct (step_trail _ _ _ Hstep) as [l1 H1].
    destruct (IH _ _ Hexec) as [l2 H2].
    exists (l1 ++ l2). now rewrite H2, H1, app_assoc.
Qed.

(** *** The size of the pool *)

Lemma started_length_le (ts : list Pc) : (length (started ts) ≤ length ts)%nat.
Proof.
  unfold started. induction ts as [|pc ts IH]; [reflexivity |].
  rewrite filter_cons. destruct (decide _); cbn; lia.
Qed.

Lemma started_all (ts : list Pc) :
  Forall (fun pc => was_started pc = true) ts → started ts = ts.
Proof.
  unfold started. induction 1 as [|pc ts Hpc _ IH]; [reflexivity |].
  rewrite filter_cons, IH. destruct (decide _) as [|Hno]; [reflexivity |].
  rewrite Hpc in Hno. now destruct Hno.
Qed.

Lemma Inv_threads_bound ws wait nb s :
  Inv ws wait nb s → Z.of_nat (length (_threads (self s))) ≤ Z.max 0 (pool ws nb).
Proof.
  intros HI. pose proof (inv_main _ _ _ _ HI) as Hmain.
  unfold main_ok, pool_ok in Hmain.
  destruct (main s); try done.
  - destruct Hmain as (_ & -> & _). cbn. lia.
  - destruct Hmain as (_ & -> & _ & _ & -> & Hle & _). exact Hle.
  - apply Hmain.
  - apply Hmain.
  - apply Hmain.
  - apply Hmain.
  - apply Hmain.
Qed.

Lemma Inv_pool ws wait nb s :
  Inv ws wait nb s → past_start (main s) = true →
  nb_threads (self s) = pool ws nb
  ∧ (start_failed (trail s) = false →
       Z.of_nat (length (started (_threads (self s)))) = Z.max 0 (pool ws nb)).
Proof.
  intros HI Hpast. pose proof (inv_main _ _ _ _ HI) as Hmain.
  unfold main_ok in Hmain.
  assert (Hpool : pool_ok ws nb s) by (destruct (main s); try done; apply Hmain).
  destruct Hpool as (Hnb & _ & Hall). split; [exact Hnb |].
  intros Hno. destruct (Hall Hno) as [Hlen Hst]. now rewrite (started_all _ Hst).
Qed.

Lemma load_world (ws : list string) (s : System) : world (load ws s) = world s.
Proof. now rewrite load_inputs. Qed.

Lemma load_queue_size isatty w api debug trace quiet t (ws : list string) :
  get_queue_size (load ws (fresh isatty w api debug trace quiet t)) = Z.of_nat (length ws).
Proof.
  rewrite load_inputs. unfold get_queue_size, qsize, fresh, ThreadedScanning.__init__.
  destruct (t >? MAX_ALLOWED_THREADS); unfold print_msg; cbn; destruct quiet; reflexivity.
Qed.

(** The warning of the constructor. *)
Lemma fresh_warning isatty w api debug trace t :
  30 < t →
  stderr (world (fresh isatty w api debug trace false t))
  = stderr w ++ ["Warning: Requested threads too large: " +:+ Py.str_of_int t
                 +:+ ". Reducing to " +:+ Py.str_of_int 30].
Proof.
  intros Ht. unfold fresh, ThreadedScanning.__init__, MAX_ALLOWED_THREADS.
  assert ((t >? 30) = true) as -> by lia. reflexivity.
Qed.

Lemma fresh_no_warning isatty w api debug trace quiet t :
  t ≤ 30 ∨ quiet = true →
  stderr (world (fresh isatty w api debug trace quiet t)) = stderr w.
Proof.
  intros Ht. unfold fresh, ThreadedScanning.__init__, MAX_ALLOWED_THREADS.
  destruct (t >? 30) eqn:Hgt; [| reflexivity].
  destruct Ht as [Ht | ->]; [lia | reflexivity].
Qed.

(** *** A run with nothing in the queue *)




End ThreadFacts.
(** ** More facts about the workers and the coordinator *)

Module ThreadMore.

Import ScanossApi ThreadedScanning ThreadFacts.

Lemma failed_snoc t n : failed (t ++ [n]) = failed t ++ failed [n].
Proof. unfold failed. now rewrite flat_map_app. Qed.


(** *** The second invariant *)

Lemma start_Inv2 isatty w api debug trace quiet t wait ws :
  Inv2 wait (run wait (load ws (fresh isatty w api debug trace quiet t))).
Proof.
  rewrite load_inputs. unfold fresh, ThreadedScanning.__init__.
  destruct (t >? MAX_ALLOWED_THREADS); unfold print_msg; cbn;
    destruct quiet; cbn; (split; cbn; try done; try (intros; lia)).
Qed.

Ltac inv2_field Hpc :=
  unfold count_started; cbn;
  try (let f := fresh "f" in intros f;
       repeat match goal with H : ∀ _ : string → Z, _ |- _ => specialize (H f) end);
  rewrite ?flat_map_app; cbn;
  rewrite ?sumZ_app, ?sumZ_cons, ?sumZ_nil, ?app_nil_r;
  repeat (erewrite (sumZ_insert _ _ _ _ _ Hpc));
  cbv beta; cbn [erring is_dead has_finished was_started];
  rewrite ?sumZ_cons, ?sumZ_nil;
  try lia; try done.

Lemma step_work_Inv2 ws wait nb tid env s s' :
  Inv ws wait nb s → Inv2 wait s → step (Work tid env) s = Some s' → Inv2 wait s'.
Proof.
  intros HI HJ Hstep. cbn in Hstep.
  destruct (_threads (self s) !! tid) as [pc|] eqn:Hpc; [| discriminate].
  destruct (worker_step tid env pc s) as [[pc' s1]|] eqn:Hw; [| discriminate].
  injection Hstep as <-.
  pose proof (Inv_holding _ _ _ _ tid pc HI Hpc) as Hheld.
  pose proof (sumZ_lookup_le (fun pc => if was_started pc then 1 else 0) _ tid pc
                ltac:(intros []; cbn; lia) Hpc) as Hone.
  pose proof (sumZ_lookup_le (fun pc => if has_finished pc then 1 else 0) _ tid pc
                ltac:(intros []; cbn; lia) Hpc) as Hfin.
  clear HI.
  destruct HJ as [Hf Ha Hs Hfi Hst].
  destruct s as [[[q u] out [bar|] api dbg trc qt nbt tty bc err stop ts] m w t].
  all: cbn in *.
  all: unfold count_started in *.
  all: destruct pc; cbn in Hw; try discriminate;
    unfold print_trace, task_done, get in Hw; cbn in Hw;
    repeat case_match; simplify_eq; cbn in *.
  all: try (assert (1 ≤ u) by (apply Hheld; discriminate); lia).
  all: split; [inv2_field Hpc ..].
  all: try (intros; lia).
  all: destruct stop; cbn in *;
    first [discriminate | tauto | (specialize (Hfi eq_refl); lia)].
Qed.

Lemma step_main_Inv2 ws wait nb start_error s s' :
  Inv ws wait nb s → Inv2 wait s → step (Main start_error) s = Some s' → Inv2 wait s'.
Proof.
  intros HI HJ Hstep. cbn in Hstep.
  pose proof (inv_main _ _ _ _ HI) as Hmain. clear HI.
  destruct HJ as [Hf Ha Hs Hfi Hst].
  destruct s as [[[q u] out bar api dbg trc qt nbt tty bc err stop ts] m w t].
  unfold main_step, main_ok, after_start, print_debug, join_returns, qsize, count_started in *.
  cbn in *.
  destruct m; try discriminate; repeat case_match; simplify_eq; cbn.
  all: split; [inv2_field Hstep ..].
  all: try (intros; lia).
  all: try tauto.
  all: try (intros; specialize (Hfi ltac:(assumption)); lia).
  all: try (intros; specialize (Hst ltac:(assumption)); lia).
  all: match goal with
       | H : _ ≠ [] |- _ =>
           rewrite flat_map_app in H; cbn in H; rewrite app_nil_r in H;
           rewrite !Z.add_0_r; exact (Hst H)
       end.
Qed.

Lemma exec_Inv2 ws wait nb evs :
  ∀ s s', Inv ws wait nb s → Inv2 wait s → exec evs s = Some s' → Inv2 wait s'.
Proof.
  induction evs as [|ev evs IH]; intros s s' HI HJ Hexec; cbn in Hexec.
  - now injection Hexec as <-.
  - destruct (step ev s) as [s1|] eqn:Hstep; [| discriminate].
    apply (IH s1 s'); [| | exact Hexec].
    + apply (exec_Inv ws wait nb [ev] s s1 HI). cbn. now rewrite Hstep.
    + destruct ev as [start_error | tid env].
      * eapply step_main_Inv2; eassumption.
      * eapply step_work_Inv2; eassumption.
Qed.

Lemma run_Inv2 isatty w api debug trace quiet t wait ws evs s :
  exec evs (run wait (load ws (fresh isatty w api debug trace quiet t))) = Some s →
  Inv2 wait s.
Proof. apply (exec_Inv2 ws wait (Z.min t 30)); [apply start_Inv | apply start_Inv2]. Qed.

(** *** The results that are kept *)






(** *** The progress bar *)



(** *** After the run *)

(** At rest a step is a step of a worker that finds nothing to do: it
    leaves the system at rest and changes nothing but [stderr] and the time
    slept. *)
Lemma step_at_rest ev s s' :
  at_rest s → step ev s = Some s' →
  at_rest s'
  ∧ trail s' = trail s ∧ main s' = main s
  ∧ inputs (self s') = inputs (self s) ∧ output (self s') = output (self s)
  ∧ _errors (self s') = _errors (self s) ∧ _bar_count (self s') = _bar_count (self s)
  ∧ bar (self s') = bar (self s)
  ∧ requests (world s') = requests (world s) ∧ files (world s') = files (world s)
  ∧ length (_threads (self s')) = length (_threads (self s)).
Proof.
  intros (Hq & Hhold & result & Hmain) Hstep. unfold at_rest.
  destruct s as [[[q u] out bar api dbg trc qt nbt tty bc err stop ts] m w t].
  cbn in *. subst q m.
  destruct ev as [start_error | tid env]; cbn in Hstep; [discriminate |].
  destruct (ts !! tid) as [pc|] eqn:Hpc; [| discriminate].
  pose proof (proj1 (Forall_lookup _ _) Hhold tid pc Hpc) as Hnil. cbn in Hnil.
  destruct pc; try discriminate; cbn in Hstep; unfold print_trace in Hstep; cbn in Hstep;
    repeat case_match; simplify_eq; cbn; rewrite ?length_insert;
    (split; [split; [reflexivity | split; [| by eexists]] |]; [| done]);
    by apply Forall_insert.
Qed.

Lemma exec_at_rest evs :
  ∀ s s', at_rest s → exec evs s = Some s' →
  at_rest s'
  ∧ trail s' = trail s ∧ main s' = main s
  ∧ inputs (self s') = inputs (self s) ∧ output (self s') = output (self s)
  ∧ _errors (self s') = _errors (self s) ∧ _bar_count (self s') = _bar_count (self s)
  ∧ bar (self s') = bar (self s)
  ∧ requests (world s') = requests (world s) ∧ files (world s') = files (world s)
  ∧ length (_threads (self s')) = length (_threads (self s)).
Proof.
  induction evs as [|ev evs IH]; intros s s' Hrest Hexec; cbn in Hexec.
  - injection Hexec as <-. done.
  - destruct (step ev s) as [s1|] eqn:Hstep; [| discriminate].
    destruct (step_at_rest _ _ _ Hrest Hstep)
      as (Hrest1 & H1 & H2 & H3 & H4 & H5 & H6 & H7 & H8 & H9 & H10).
    destruct (IH _ _ Hrest1 Hexec) as (Hrest' & ? & ? & ? & ? & ? & ? & ? & ? & ? & ?).
    split; [exact Hrest' |]. repeat split; congruence.
Qed.

(** *** The requests of a run *)

(** A payload being posted was taken from the queue. *)
Lemma Inv_scanning ws wait nb s (tid : nat) (wfp : string) :
  Inv ws wait nb s → _threads (self s) !! tid = Some (AtScan wfp) → wfp ∈ ws.
Proof.
  intros HI Hpc.
  pose (f := fun x : string => if decide (x = wfp) then 1 else 0).
  assert (Hf : ∀ x, 0 ≤ f x) by (intros x; unfold f; destruct (decide _); lia).
  pose proof (inv_posted _ _ _ _ HI f) as Hp.
  pose proof (sumZ_lookup_le (fun pc => sumZ f (scanning pc)) _ tid _
                ltac:(intros pc; apply sumZ_nonneg, Hf) Hpc) as Hle.
  cbv beta in Hle. cbn [scanning] in Hle. rewrite sumZ_cons, sumZ_nil in Hle.
  pose proof (sumZ_nonneg f (posted (trail s)) Hf) as Hpos.
  assert (Hone : f wfp = 1) by (unfold f; destruct (decide _); congruence).
  assert (Hin : 1 ≤ sumZ f (dequeued (trail s))).
  { remember (sumZ (fun pc => sumZ f (scanning pc)) (_threads (self s))) as X.
    clear HeqX. lia. }
  unfold f in Hin. rewrite sumZ_count in Hin.
  rewrite (inv_queue _ _ _ _ HI). apply elem_of_app. left.
  apply list_elem_of_In, (count_occ_In string_dec). lia.
Qed.

Lemma step_requests ws wait nb ev s s' :
  Inv ws wait nb s → step ev s = Some s' →
  scanapi (self s') = scanapi (self s)
  ∧ ∃ l p, requests (world s') = requests (world s) ++ l
           ∧ posted (trail s') = posted (trail s) ++ p
           ∧ Forall (request_for (scanapi (self s)) ws) l
           ∧ (length p ≤ length l ≤ 6 * length p)%nat.
Proof.
  intros HI Hstep. destruct ev as [start_error | tid env]; cbn in Hstep.
  - clear HI. destruct s as [[[q u] out bar api dbg trc qt nbt tty bc err stop ts] m w t].
    unfold main_step, after_start, print_debug, join_returns in Hstep. cbn in *.
    destruct m; try discriminate; repeat case_match; simplify_eq; cbn;
      rewrite ?posted_snoc; cbn; (split; [reflexivity |]); exists [], [];
      rewrite !app_nil_r; repeat split; (constructor || lia).
  - destruct (_threads (self s) !! tid) as [pc|] eqn:Hpc; [| discriminate].
    destruct (worker_step tid env pc s) as [[pc' s1]|] eqn:Hw; [| discriminate].
    injection Hstep as <-.
    assert (Hscan : ∀ wfp, pc = AtScan wfp → wfp ∈ ws)
      by (intros wfp ->; exact (Inv_scanning _ _ _ _ _ _ HI Hpc)).
    clear HI Hpc.
    destruct s as [[[q u] out [bar|] api dbg trc qt nbt tty bc err stop ts] m w t].
    all: destruct pc; cbn in Hw; try discriminate.
    all: try (unfold print_trace, task_done, get in Hw; cbn in Hw;
              repeat case_match; simplify_eq; cbn;
              rewrite ?posted_snoc; cbn; (split; [reflexivity |]); exists [], [];
              rewrite !app_nil_r; repeat split; (constructor || lia)).
    all: specialize (Hscan wfp eq_refl);
      pose proof (ApiMore.scan_shape api env wfp None (Some (get_ident tid)) w) as Hshape;
      cbv zeta in Hshape; destruct Hshape as (k & Hk & Hreq & _);
      destruct (scan api env wfp None (Some (get_ident tid)) w) as [result w'];
      cbn in Hreq;
      assert (Hgoal : ∃ l p, requests w' = requests w ++ l
                             ∧ posted (t ++ [Called tid wfp result]) = posted t ++ p
                             ∧ Forall (request_for api ws) l
                             ∧ (length p ≤ length l ≤ 6 * length p)%nat)
        by (exists (repeat (request_of api env wfp None) k), [wfp];
            rewrite posted_snoc, repeat_length; cbn;
            repeat split; try assumption; try lia;
            apply Forall_forall; intros rq Hrq; apply list_elem_of_In, repeat_spec in Hrq;
            subst rq; repeat split; assumption);
      destruct result; simplify_eq; cbn; (split; [reflexivity | exact Hgoal]).
Qed.

Lemma exec_requests ws wait nb evs :
  ∀ s s', Inv ws wait nb s → exec evs s = Some s' →
  scanapi (self s') = scanapi (self s)
  ∧ ∃ l p, requests (world s') = requests (world s) ++ l
           ∧ posted (trail s') = posted (trail s) ++ p
           ∧ Forall (request_for (scanapi (self s)) ws) l
           ∧ (length p ≤ length l ≤ 6 * length p)%nat.
Proof.
  induction evs as [|ev evs IH]; intros s s' HI Hexec; cbn in Hexec.
  - injection Hexec as <-. split; [reflexivity |]. exists [], [].
    rewrite !app_nil_r. repeat split; (constructor || lia).
  - destruct (step ev s) as [s1|] eqn:Hstep; [| discriminate].
    assert (HI1 : Inv ws wait nb s1)
      by (apply (exec_Inv ws wait nb [ev] s s1 HI); cbn; now rewrite Hstep).
    destruct (step_requests _ _ _ _ _ _ HI Hstep) as (Hapi & l1 & p1 & Hl1 & Hp1 & Hall1 & Hn1).
    destruct (IH _ _ HI1 Hexec) as (Hapi' & l2 & p2 & Hl2 & Hp2 & Hall2 & Hn2).
    rewrite Hapi in *. split; [exact Hapi' |].
    exists (l1 ++ l2), (p1 ++ p2). rewrite Hl2, Hp2, Hl1, Hp1, <- !app_assoc, !length_app.
    repeat split; try lia. now apply Forall_app.
Qed.

(** *** Counting the files of joined payloads *)

Lemma split_app (c : ascii) (a b : string) :
  Py.split c (a +:+ String c b) = Py.split c a ++ Py.split c b.
Proof.
  induction a as [|x a IH].
  - rewrite PyFacts.append_nil. cbn [Py.split]. now rewrite Ascii.eqb_refl.
  - rewrite PyFacts.append_cons. cbn [Py.split]. rewrite IH.
    destruct (Ascii.eqb x c); [reflexivity |].
    pose proof (PyFacts.split_not_nil c a) as Hnil.
    destruct (Py.split c a) as [|p rest]; [congruence | reflexivity].
Qed.

Lemma fold_count_line_acc (ls : list string) (acc : Z) :
  fold_left count_line ls acc = acc + fold_left count_line ls 0.
Proof.
  revert acc. induction ls as [|l ls IH]; intros acc; cbn [fold_left]; [lia |].
  rewrite (IH (count_line acc l)), (IH (count_line 0 l)).
  unfold count_line. destruct (Py.contains WFP_FILE_START l); lia.
Qed.

Lemma fold_count_line_bounds (ls : list string) :
  0 ≤ fold_left count_line ls 0 ≤ Z.of_nat (length ls).
Proof.
  induction ls as [|l ls IH]; cbn [fold_left length]; [lia |].
  assert (Hc : 0 ≤ count_line 0 l ≤ 1)
    by (unfold count_line; destruct (Py.contains WFP_FILE_START l); lia).
  rewrite (fold_count_line_acc ls (count_line 0 l)). lia.
Qed.

Lemma count_files_app (a b : string) :
  __count_files_in_wfp (Some (a +:+ String Py.newline b))
  = __count_files_in_wfp (Some a) + __count_files_in_wfp (Some b).
Proof.
  rewrite !count_files_fold, split_app, fold_left_app.
  apply fold_count_line_acc.
Qed.

Lemma file_count_join (ws : list string) :
  file_count ws = __count_files_in_wfp (Some (Py.join Py.newline ws)).
Proof.
  unfold file_count. induction ws as [|w ws IH]; [reflexivity |].
  rewrite sumZ_cons, IH. destruct ws as [|w' ws].
  - cbn [Py.join]. change (__count_files_in_wfp (Some EmptyString)) with 0. lia.
  - change (Py.join Py.newline (w :: w' :: ws))
      with (w +:+ String Py.newline (Py.join Py.newline (w' :: ws))).
    now rewrite count_files_app.
Qed.

(** *** Threads that were started *)

Lemma count_started_length (ts : list Pc) :
  count_started ts = Z.of_nat (length (started ts)).
Proof.
  unfold count_started, started. induction ts as [|pc ts IH]; [reflexivity |].
  rewrite sumZ_cons, filter_cons, IH.
  destruct (was_started pc) eqn:Hpc; destruct (decide _) as [H|H]; cbn in *;
    try contradiction; try lia.
Qed.

(** *** Readings of the record, again *)


Lemma error_recorded_split (t : list Note) :
  error_recorded t = true ↔ failed t ≠ [] ∨ start_failed t = true.
Proof.
  induction t as [|n t IH]; cbn.
  - split; [discriminate | intros [H | H]; [congruence | discriminate]].
  - destruct n; cbn; try exact IH.
    + split; [intros _; left; discriminate | reflexivity].
    + split; [intros _; now right | reflexivity].
Qed.

Lemma holding_nil_idle (pc : Pc) : holding pc = [] → pending pc = [] ∧ erring pc = [].
Proof. destruct pc; cbn; intros; try discriminate; done. Qed.


(** When [run] has returned with [wait], the system is at rest. *)
Lemma returned_at_rest ws nb s result :
  Inv ws true nb s → main s = RunReturned result → at_rest s.
Proof.
  intros HI Hret. destruct (returned_idle _ _ _ _ HI Hret) as (Hq & _ & Hhold & _).
  split; [exact Hq |]. split; [exact Hhold |]. now exists result.
Qed.

Lemma start_world isatty w api debug trace quiet t wait ws :
  requests (world (run wait (load ws (fresh isatty w api debug trace quiet t)))) = requests w
  ∧ scanapi (self (run wait (load ws (fresh isatty w api debug trace quiet t)))) = api
  ∧ posted (trail (run wait (load ws (fresh isatty w api debug trace quiet t)))) = [].
Proof.
  rewrite load_inputs. unfold fresh, ThreadedScanning.__init__.
  destruct (t >? MAX_ALLOWED_THREADS); unfold print_msg; cbn; destruct quiet; cbn; done.
Qed.

End ThreadMore.
(** * The claims of the specification *)

Import ScanossApi ThreadedScanning.

(** C9. For every payload [w], [__count_files_in_wfp] gives the number of
    newline-separated lines of [w] that contain the marker [file=] as a
    substring: whenever [ls] are the lines of [w], the count is the number
    of marked lines of [ls]; every payload has such lines, and that number
    is unique. The count is 0 for [None] and for the empty payload. *)
Theorem count_files_in_wfp_counts_marked_lines :
  (∀ w ls, lines_of w ls → marked_lines ls (__count_files_in_wfp (Some w)))
  ∧ (∀ w, lines_of w (Py.split Py.newline w))
  ∧ (∀ ls n m, marked_lines ls n → marked_lines ls m → n = m)
  ∧ __count_files_in_wfp None = 0
  ∧ __count_files_in_wfp (Some "") = 0.
Proof.
  split; [| split; [| split; [| split; reflexivity]]].
  - intros w ls (Hnil & Hfree & ->).
    rewrite ThreadFacts.count_files_fold, PyFacts.split_join by assumption.
    pose proof (ThreadFacts.fold_count_marked ls 0) as H.
    now rewrite Z.sub_0_r in H.
  - intros w. split; [apply PyFacts.split_not_nil |].
    split; [apply PyFacts.split_pieces_free | now rewrite PyFacts.join_split].
  - apply ThreadFacts.marked_lines_functional.
Qed.

Lemma count_files_in_wfp_counts_marked_lines_witness :
  lines_of (Py.join Py.newline ["file=a,1,x.c"; "4=0a1b"; "file=b,2,y.c"])
           ["file=a,1,x.c"; "4=0a1b"; "file=b,2,y.c"]
  ∧ marked_lines ["file=a,1,x.c"; "4=0a1b"; "file=b,2,y.c"] 2.
Proof.
  assert (H : lines_of (Py.join Py.newline ["file=a,1,x.c"; "4=0a1b"; "file=b,2,y.c"])
                ["file=a,1,x.c"; "4=0a1b"; "file=b,2,y.c"]).
  { split; [discriminate |]. split; [| reflexivity].
    repeat constructor; discriminate. }
  split; [exact H |].
  exact (proj1 count_files_in_wfp_counts_marked_lines _ _ H).
Defined.

(** C1. The retry policy of [ScanossApi.scan]. A call never sends more
    than 6 requests. While the cap is not reached, a connection or timeout
    failure, an empty response object and a status of 400 or more are each
    followed by a sleep of 5 and another request, so that after [n ≤ 5] such
    failures a success makes the call return the value of that response,
    having slept [n] times for 5. In particular four connection errors and
    a success on the fifth request give that one response and no
    exception; six failures in a row make the call raise. *)
Theorem scan_retries_up_to_the_cap (self : Api) (env : Env) (wfp : string)
    (context : option string) (scan_id : option Z) (w : World) :
  let sent := length (requests w) in
  let result := scan self env wfp context scan_id w in
  (length (requests result.2) ≤ sent + 6)%nat
  ∧ (∀ n resp,
       (n ≤ 5)%nat →
       (∀ i, (i < n)%nat → retryable (post env (sent + i))) →
       succeeds (post env (sent + n)) resp →
       result.1 = Returned (reply_value self resp)
       ∧ length (requests result.2) = (sent + n + 1)%nat
       ∧ slept result.2 = slept w ++ repeat 5 n)
  ∧ (∀ resp,
       (∀ i, (i < 4)%nat → post env (sent + i) = ConnectionError) →
       succeeds (post env (sent + 4)) resp →
       result.1 = Returned (reply_value self resp)
       ∧ length (requests result.2) = (sent + 5)%nat
       ∧ slept result.2 = slept w ++ [5; 5; 5; 5])
  ∧ ((∀ i, (i < 6)%nat → retryable (post env (sent + i))) →
       (∃ msg, result.1 = Raised msg)
       ∧ length (requests result.2) = (sent + 6)%nat
       ∧ slept result.2 = slept w ++ [5; 5; 5; 5; 5]).
Proof.
  intros sent result.
  assert (Hgen : ∀ n resp,
       (n ≤ 5)%nat →
       (∀ i, (i < n)%nat → retryable (post env (sent + i))) →
       succeeds (post env (sent + n)) resp →
       result.1 = Returned (reply_value self resp)
       ∧ length (requests result.2) = (sent + n + 1)%nat
       ∧ slept result.2 = slept w ++ repeat 5 n).
  { intros n resp Hn Hfail Hok.
    destruct (ApiFacts.scan_after_failures self env wfp context scan_id w n resp Hn Hfail Hok)
      as (w1 & Hscan & Hreq & Hsl & _).
    destruct (ApiFacts.decode_ok self env (uuid1_hex env +:+ ".wfp", wfp) scan_id resp w1)
      as (w2 & Hdec & Hreq2 & Hsl2); [apply Hok |].
    subst result. rewrite Hscan, Hdec. cbn. rewrite Hreq2, Hsl2. auto. }
  split; [apply ApiFacts.scan_at_most_six |].
  split; [exact Hgen |]. split.
  - intros resp Hfail Hok.
    destruct (Hgen 4%nat resp) as (Hv & Hreq & Hsl); [lia | | assumption |].
    + intros i Hi. rewrite (Hfail i Hi). exact I.
    + split; [exact Hv |]. split; [lia | exact Hsl].
  - intros Hfail.
    destruct (ApiFacts.scan_exhausted self env wfp context scan_id w Hfail)
      as (msg & w1 & Hscan & Hreq & Hsl).
    subst result. rewrite Hscan. cbn. split; [now exists msg | split; assumption].
Qed.

Lemma scan_retries_up_to_the_cap_witness :
  (scan Fixtures.api Fixtures.service_flaky "file=a,1,x.c" None (Some 1) (world0 0)).1
  = Returned (Some (Document (JObj [("a.c", JArr [])])))
  ∧ ∃ msg, (scan Fixtures.api Fixtures.service_down "file=a,1,x.c" None (Some 1) (world0 0)).1
           = Raised msg.
Proof.
  split.
  - pose proof (scan_retries_up_to_the_cap Fixtures.api Fixtures.service_flaky
                  "file=a,1,x.c" None (Some 1) (world0 0)) as (_ & _ & H & _).
    destruct (H Fixtures.good_reply) as [Hv _].
    + intros i Hi. destruct i as [|[|[|[|i]]]]; try reflexivity. lia.
    + repeat split; reflexivity.
    + exact Hv.
  - pose proof (scan_retries_up_to_the_cap Fixtures.api Fixtures.service_down
                  "file=a,1,x.c" None (Some 1) (world0 0)) as (_ & _ & _ & H).
    destruct H as [Hmsg _]; [intros i _; exact I | exact Hmsg].
Defined.

(** C7. The constructor of the client keeps the timeout it is given only
    when that is above 5, and takes 120 otherwise: a timeout of exactly 5,
    the stated minimum, is replaced by 120. *)
Theorem timeout_of_five_becomes_default :
  (∀ environ read_file scan_type sbom_path scan_format flags url api_key debug trace quiet t,
     timeout <$> ScanossApi.__init__ environ read_file scan_type sbom_path scan_format flags
                   url api_key debug trace quiet t
     = (fun _ => if t >? 5 then t else 120)
         <$> ScanossApi.__init__ environ read_file scan_type sbom_path scan_format flags
               url api_key debug trace quiet t)
  ∧ timeout <$> ScanossApi.__init__ (fun _ => None) (fun _ => None) None None None None
                  None None false false false 5
    = Some 120.
Proof.
  split; [| reflexivity]. intros.
  destruct (ScanossApi.__init__ _ _ _ _ _ _ _ _ _ _ _ _) as [api|] eqn:Hinit; [| reflexivity].
  cbn. f_equal. eapply ApiFacts.init_timeout, Hinit.
Qed.




(** ** Runs of the coordinator *)

(** Facts about a concrete run are settled by running it. *)
Ltac by_running :=
  repeat match goal with |- _ ∧ _ => split; [vm_compute; reflexivity |] end;
  vm_compute; reflexivity.

(** C2, as the specification states it, fails when a call raises: the
    payload is dequeued and has one file, the run ends, and the progress
    counter is still 0. *)
Lemma progress_counter_skips_failed_item :
  ∃ s, exec Fixtures.failing_run (Fixtures.start 1 [Fixtures.payload_a]) = Some s
       ∧ main s = RunReturned false
       ∧ dequeued (trail s) = [Fixtures.payload_a]
       ∧ raised (trail s) = [Fixtures.payload_a]
       ∧ file_count (dequeued (trail s)) = 1
       ∧ _bar_count (self s) = 0.
Proof.
  exists (Fixtures.outcome Fixtures.failing_run (Fixtures.start 1 [Fixtures.payload_a])).
  by_running.
Qed.

(** C2, amended. When [run] (with [wait]) has returned, every payload that
    was loaded has been dequeued, in order, and the progress counter
    [_bar_count] is the sum of the file counts of the dequeued payloads
    whose call of [scan] returned, with a result or with [None]; a payload
    whose call raised adds nothing. The counter therefore never exceeds
    the sum over all dequeued payloads, and falls short of it by the file
    counts of the payloads whose call raised. *)
Theorem progress_counter_counts_returned_items (isatty : bool) (w : World) (api : Api)
    (debug trace quiet : bool) (t : Z) (ws : list string) (evs : list Event) (s : System)
    (result : bool) :
  exec evs (run true (load ws (fresh isatty w api debug trace quiet t))) = Some s →
  main s = RunReturned result →
  dequeued (trail s) = ws
  ∧ _bar_count (self s) = file_count (returned (trail s))
  ∧ file_count (dequeued (trail s))
    = file_count (returned (trail s)) + file_count (raised (trail s))
  ∧ _bar_count (self s) ≤ file_count (dequeued (trail s)).
Proof.
  intros Hexec Hret. apply ThreadFacts.run_Inv in Hexec as HI.
  destruct (ThreadFacts.returned_all_done _ _ _ _ HI Hret) as (Hdeq & Hpost & _ & Hbar & _).
  assert (Hsplit : file_count (dequeued (trail s))
                   = file_count (returned (trail s)) + file_count (raised (trail s))).
  { rewrite Hdeq, <- (ThreadFacts.file_count_Permutation _ _ Hpost).
    apply ThreadFacts.posted_returned_raised. }
  split; [exact Hdeq |]. split; [exact Hbar |]. split; [exact Hsplit |].
  pose proof (ThreadFacts.file_count_nonneg (raised (trail s))). lia.
Qed.

Lemma progress_counter_counts_returned_items_witness :
  ∃ s, exec Fixtures.mixed_run (Fixtures.start 1 [Fixtures.payload_a; Fixtures.payload_b])
       = Some s
       ∧ returned (trail s) = [Fixtures.payload_b]
       ∧ _bar_count (self s) = file_count (returned (trail s)).
Proof.
  set (s0 := Fixtures.start 1 [Fixtures.payload_a; Fixtures.payload_b]).
  set (s := Fixtures.outcome Fixtures.mixed_run s0).
  assert (Hexec : exec Fixtures.mixed_run s0 = Some s) by (vm_compute; reflexivity).
  assert (Hret : main s = RunReturned false) by (vm_compute; reflexivity).
  exists s. split; [exact Hexec |]. split; [vm_compute; reflexivity |].
  exact (proj1 (proj2 (progress_counter_counts_returned_items false (world0 0) Fixtures.api
                         false false false 1 [Fixtures.payload_a; Fixtures.payload_b]
                         Fixtures.mixed_run s false Hexec Hret))).
Defined.

(** C3. A worker that has taken the empty payload and whose call of [scan]
    raises does not mark the item done: the test [if wfp:] in the handler
    is false. From then on the counter of the queue stays above zero and
    [run] never returns, whatever the schedule; the run of one thread on
    the single payload [''] with the service down reaches such a state.
    Only empty payloads are ever left unmarked. *)
Theorem empty_payload_failure_is_not_marked_done :
  (∀ isatty w api debug trace quiet t ws evs s evs' s',
     exec evs (run true (load ws (fresh isatty w api debug trace quiet t))) = Some s →
     not_marked (trail s) ≠ [] →
     exec evs' s = Some s' →
     ∀ result, main s' ≠ RunReturned result)
  ∧ (∀ isatty w api debug trace quiet t wait ws evs s,
       exec evs (run wait (load ws (fresh isatty w api debug trace quiet t))) = Some s →
       Forall (fun wfp => wfp = EmptyString) (not_marked (trail s)))
  ∧ (∃ s, exec Fixtures.stuck_run (Fixtures.start 1 [EmptyString]) = Some s
          ∧ main s = Waiting
          ∧ dequeued (trail s) = [EmptyString]
          ∧ marked_done (trail s) = []
          ∧ not_marked (trail s) = [EmptyString]
          ∧ unfinished_tasks (inputs (self s)) = 1
          ∧ step (Main None) s = None).
Proof.
  split; [| split].
  - intros isatty w api debug trace quiet t ws evs s evs' s' Hexec Hnot Hexec' result Hret.
    assert (Hall : exec (evs ++ evs')
                     (run true (load ws (fresh isatty w api debug trace quiet t))) = Some s').
    { rewrite ThreadFacts.exec_app, Hexec. exact Hexec'. }
    apply ThreadFacts.run_Inv in Hall as HI.
    destruct (ThreadFacts.returned_idle _ _ _ _ HI Hret) as (_ & Hnm & _).
    destruct (ThreadFacts.exec_trail _ _ _ Hexec') as [l Hl].
    rewrite Hl in Hnm. unfold not_marked in *. rewrite flat_map_app in Hnm.
    apply app_eq_nil in Hnm as [Hnm _]. contradiction.
  - intros isatty w api debug trace quiet t wait ws evs s Hexec.
    apply ThreadFacts.run_Inv in Hexec. apply (inv_not_marked _ _ _ _ Hexec).
  - exists (Fixtures.outcome Fixtures.stuck_run (Fixtures.start 1 [EmptyString])).
    by_running.
Qed.

Lemma empty_payload_failure_is_not_marked_done_witness :
  exec (Fixtures.stuck_run ++ [Work 0 Fixtures.service_down; Work 0 Fixtures.service_down])
       (Fixtures.start 1 [EmptyString])
  = Some (Fixtures.outcome
            (Fixtures.stuck_run ++ [Work 0 Fixtures.service_down; Work 0 Fixtures.service_down])
            (Fixtures.start 1 [EmptyString]))
  ∧ main (Fixtures.outcome
            (Fixtures.stuck_run ++ [Work 0 Fixtures.service_down; Work 0 Fixtures.service_down])
            (Fixtures.start 1 [EmptyString]))
    ≠ RunReturned false.
Proof.
  set (s0 := Fixtures.start 1 [EmptyString]).
  set (more := [Work 0 Fixtures.service_down; Work 0 Fixtures.service_down]).
  set (s := Fixtures.outcome Fixtures.stuck_run s0).
  set (s' := Fixtures.outcome (Fixtures.stuck_run ++ more) s0).
  assert (Hexec : exec Fixtures.stuck_run s0 = Some s) by (vm_compute; reflexivity).
  assert (Hnot : not_marked (trail s) ≠ []) by (vm_compute; discriminate).
  assert (Hmore : exec more s = Some s') by (vm_compute; reflexivity).
  split; [vm_compute; reflexivity |].
  exact (proj1 empty_payload_failure_is_not_marked_done false (world0 0) Fixtures.api false
           false false 1 [EmptyString] Fixtures.stuck_run s more s' Hexec Hnot Hmore false).
Defined.

(** C4, as the specification states it, fails: after the worker has
    recorded the error for the first payload it dequeues the second one and
    posts it, and the response is collected; the run is reported as
    failed. *)
Lemma workers_go_on_after_fatal_error :
  ∃ s, exec Fixtures.mixed_run (Fixtures.start 1 [Fixtures.payload_a; Fixtures.payload_b])
       = Some s
       ∧ main s = RunReturned false
       ∧ raised (trail s) = [Fixtures.payload_a]
       ∧ posted_after_failure (trail s) = true
       ∧ posted (trail s) = [Fixtures.payload_a; Fixtures.payload_b]
       ∧ responses s = [Document (JObj [("a.c", JArr [])])].
Proof.
  exists (Fixtures.outcome Fixtures.mixed_run
            (Fixtures.start 1 [Fixtures.payload_a; Fixtures.payload_b])).
  by_running.
Qed.

(** C4, amended. A recorded error does not abort the run. When [run]
    (with [wait]) has returned, it reports failure if an error was
    recorded, and every payload that was loaded, those behind a failed one
    included, has been posted exactly once (none again, none left out) and
    marked done exactly once. *)
Theorem fatal_error_fails_the_run_without_aborting (isatty : bool) (w : World) (api : Api)
    (debug trace quiet : bool) (t : Z) (ws : list string) (evs : list Event) (s : System)
    (result : bool) :
  exec evs (run true (load ws (fresh isatty w api debug trace quiet t))) = Some s →
  main s = RunReturned result →
  (error_recorded (trail s) = true → result = false)
  ∧ posted (trail s) ≡ₚ ws
  ∧ marked_done (trail s) ≡ₚ ws
  ∧ queue (inputs (self s)) = [].
Proof.
  intros Hexec Hret. apply ThreadFacts.run_Inv in Hexec as HI.
  destruct (ThreadFacts.returned_all_done _ _ _ _ HI Hret) as (_ & Hpost & Hdone & _ & ->).
  destruct (ThreadFacts.returned_idle _ _ _ _ HI Hret) as (Hq & _).
  split; [now intros -> |]. split; [exact Hpost |]. split; [exact Hdone | exact Hq].
Qed.

Lemma fatal_error_fails_the_run_without_aborting_witness :
  ∃ s, exec Fixtures.mixed_run (Fixtures.start 1 [Fixtures.payload_a; Fixtures.payload_b])
       = Some s
       ∧ error_recorded (trail s) = true
       ∧ posted (trail s) ≡ₚ [Fixtures.payload_a; Fixtures.payload_b].
Proof.
  set (s0 := Fixtures.start 1 [Fixtures.payload_a; Fixtures.payload_b]).
  set (s := Fixtures.outcome Fixtures.mixed_run s0).
  assert (Hexec : exec Fixtures.mixed_run s0 = Some s) by (vm_compute; reflexivity).
  assert (Hret : main s = RunReturned false) by (vm_compute; reflexivity).
  exists s. split; [exact Hexec |]. split; [vm_compute; reflexivity |].
  exact (proj1 (proj2 (fatal_error_fails_the_run_without_aborting false (world0 0)
                         Fixtures.api false false false 1
                         [Fixtures.payload_a; Fixtures.payload_b] Fixtures.mixed_run s false
                         Hexec Hret))).
Defined.

(** C8. [run] returns [False if self._errors else True]. With [wait], the
    value returned is true exactly when neither a worker nor the start of
    the pool recorded an error, and the responses are what the workers
    stored; whatever [wait], the value is the negation of the error flag at
    the moment of returning. The responses are read separately and can be
    there when the value is false. *)
Theorem run_returns_true_iff_no_error_recorded :
  (∀ isatty w api debug trace quiet t ws evs s result,
     exec evs (run true (load ws (fresh isatty w api debug trace quiet t))) = Some s →
     main s = RunReturned result →
     (result = true ↔ error_recorded (trail s) = false)
     ∧ responses s = stored (trail s))
  ∧ (∀ isatty w api debug trace quiet t wait ws evs s start_error s',
       exec evs (run wait (load ws (fresh isatty w api debug trace quiet t))) = Some s →
       main s = Returning →
       step (Main start_error) s = Some s' →
       main s' = RunReturned (negb (error_recorded (trail s)))
       ∧ _errors (self s) = error_recorded (trail s))
  ∧ (∃ s, exec Fixtures.mixed_run
               (Fixtures.start 1 [Fixtures.payload_a; Fixtures.payload_b]) = Some s
          ∧ main s = RunReturned false
          ∧ responses s = [Document (JObj [("a.c", JArr [])])]).
Proof.
  split; [| split].
  - intros isatty w api debug trace quiet t ws evs s result Hexec Hret.
    apply ThreadFacts.run_Inv in Hexec as HI.
    destruct (ThreadFacts.returned_all_done _ _ _ _ HI Hret) as (_ & _ & _ & _ & ->).
    split; [| apply (inv_output _ _ _ _ HI)].
    destruct (error_recorded (trail s)); cbn; split; congruence.
  - intros isatty w api debug trace quiet t wait ws evs s start_error s' Hexec Hmain Hstep.
    apply ThreadFacts.run_Inv in Hexec as HI.
    pose proof (inv_errors _ _ _ _ HI) as He. split; [| exact He].
    cbn in Hstep. unfold main_step in Hstep. rewrite Hmain in Hstep.
    injection Hstep as <-. cbn. rewrite He. now destruct (error_recorded (trail s)).
  - exists (Fixtures.outcome Fixtures.mixed_run
              (Fixtures.start 1 [Fixtures.payload_a; Fixtures.payload_b])).
    by_running.
Qed.

Lemma run_returns_true_iff_no_error_recorded_witness :
  ∃ s, exec (Fixtures.pool_of_one ++ Fixtures.enter 0 ++ Fixtures.item_passes 0
               ++ Fixtures.complete) (Fixtures.start 1 [Fixtures.payload_a]) = Some s
       ∧ main s = RunReturned true
       ∧ error_recorded (trail s) = false.
Proof.
  set (s0 := Fixtures.start 1 [Fixtures.payload_a]).
  set (evs := Fixtures.pool_of_one ++ Fixtures.enter 0 ++ Fixtures.item_passes 0
                ++ Fixtures.complete).
  set (s := Fixtures.outcome evs s0).
  assert (Hexec : exec evs s0 = Some s) by (vm_compute; reflexivity).
  assert (Hret : main s = RunReturned true) by (vm_compute; reflexivity).
  exists s. split; [exact Hexec |]. split; [exact Hret |].
  exact (proj1 (proj1 (proj1 run_returns_true_iff_no_error_recorded false (world0 0)
                         Fixtures.api false false false 1 [Fixtures.payload_a] evs s true
                         Hexec Hret)) eq_refl).
Defined.

(** C5, as the specification states it, fails for a quiet object: a
    request for 31 threads is reduced to 30 and nothing is printed. *)
Lemma quiet_object_clamps_without_warning :
  let s := fresh false (world0 0) Fixtures.api false false true 31 in
  nb_threads (self s) = 30 ∧ stderr (world s) = [].
Proof. split; reflexivity. Qed.

(** C5, amended. The pool of [run]. For a requested thread count [t] and
    [q] payloads in the queue when [run] is entered, the pool size
    [nb_threads] is [min t 30 q] once the threads are being started, and
    when no start of a thread fails the number of threads started is that
    number (none when it is not positive, so exactly [min t 30 q] for a
    count [t ≥ 0]). The number of threads started never exceeds 30 and
    never exceeds [q]. The constructor prints a warning when it reduces
    [t] to 30 and the object is not quiet; it prints nothing when [t] is
    at most 30 or the object is quiet. *)
Theorem pool_size_is_min_of_request_cap_and_queue (isatty : bool) (w : World) (api : Api)
    (debug trace quiet : bool) (t : Z) (wait : bool) (ws : list string) (evs : list Event)
    (s : System) :
  exec evs (run wait (load ws (fresh isatty w api debug trace quiet t))) = Some s →
  let q := get_queue_size (load ws (fresh isatty w api debug trace quiet t)) in
  let n := Z.min t (Z.min 30 q) in
  let threads := Z.of_nat (length (started (_threads (self s)))) in
  q = Z.of_nat (length ws)
  ∧ threads ≤ 30
  ∧ threads ≤ q
  ∧ threads ≤ Z.max 0 n
  ∧ (past_start (main s) = true →
       nb_threads (self s) = n
       ∧ (start_failed (trail s) = false →
            threads = Z.max 0 n ∧ (0 ≤ t → threads = n)))
  ∧ (30 < t → quiet = false →
       stderr (world (fresh isatty w api debug trace quiet t))
       = stderr w ++ ["Warning: Requested threads too large: " +:+ Py.str_of_int t
                      +:+ ". Reducing to " +:+ Py.str_of_int 30])
  ∧ (t ≤ 30 ∨ quiet = true →
       stderr (world (fresh isatty w api debug trace quiet t)) = stderr w).
Proof.
  intros Hexec q n threads. apply ThreadFacts.run_Inv in Hexec as HI.
  assert (Hq : q = Z.of_nat (length ws)) by apply ThreadFacts.load_queue_size.
  pose proof (ThreadFacts.Inv_threads_bound _ _ _ _ HI) as Hbound.
  pose proof (ThreadFacts.started_length_le (_threads (self s))) as Hle.
  unfold pool in Hbound. rewrite <- Hq in Hbound.
  assert (Hn : Z.min (Z.min t 30) q = n) by (subst n; lia).
  rewrite Hn in Hbound.
  assert (Hthreads : threads ≤ Z.max 0 n) by (subst threads; lia).
  split; [exact Hq |].
  split; [subst n; lia |]. split; [subst n; lia |]. split; [exact Hthreads |].
  split; [| split].
  - intros Hpast. destruct (ThreadFacts.Inv_pool _ _ _ _ HI Hpast) as [Hnb Hall].
    unfold pool in Hnb, Hall. rewrite <- Hq, Hn in Hnb, Hall.
    split; [exact Hnb |]. intros Hno. specialize (Hall Hno). fold threads in Hall.
    split; [exact Hall |]. intros Ht. subst n. lia.
  - intros Ht ->. now apply ThreadFacts.fresh_warning.
  - apply ThreadFacts.fresh_no_warning.
Qed.

Lemma pool_size_is_min_of_request_cap_and_queue_witness :
  ∃ s, exec (repeat (Main None) 4)
            (run true (load [Fixtures.payload_a; Fixtures.payload_b]
                         (fresh false (world0 0) Fixtures.api false false false 100)))
       = Some s
       ∧ _threads (self s) = [Spawned; Spawned]
       ∧ nb_threads (self s) = 2.
Proof.
  set (ws := [Fixtures.payload_a; Fixtures.payload_b]).
  set (s0 := run true (load ws (fresh false (world0 0) Fixtures.api false false false 100))).
  set (s := Fixtures.outcome (repeat (Main None) 4) s0).
  assert (Hexec : exec (repeat (Main None) 4) s0 = Some s) by (vm_compute; reflexivity).
  assert (Hpast : past_start (main s) = true) by (vm_compute; reflexivity).
  exists s. split; [exact Hexec |]. split; [vm_compute; reflexivity |].
  pose proof (pool_size_is_min_of_request_cap_and_queue false (world0 0) Fixtures.api false
                false false 100 true ws (repeat (Main None) 4) s Hexec) as H.
  cbv zeta in H. destruct H as (_ & _ & _ & _ & H & _).
  destruct (H Hpast) as [Hnb _]. rewrite Hnb. vm_compute. reflexivity.
Defined.



(** * Further properties of the code *)

(** ** The REST client *)

(** X1. Whatever the service does, one call of [scan] sends the same
    request [k] times, with 1 ≤ k ≤ 6: the URL, headers and timeout of the
    object, the file entry [(uuid.wfp, payload)] and the form data built
    before the loop. It sleeps exactly [k - 1] times, 5 each, once after
    every request but the last. *)
Theorem scan_resends_the_same_request (self : Api) (env : Env) (wfp : string)
    (context : option string) (scan_id : option Z) (w : World) :
  let result := scan self env wfp context scan_id w in
  ∃ k : nat,
    (1 ≤ k ≤ 6)%nat
    ∧ requests result.2 = requests w ++ repeat (request_of self env wfp context) k
    ∧ slept result.2 = slept w ++ repeat 5 (k - 1)
    ∧ clock result.2 = clock w + 5 * Z.of_nat (k - 1).
Proof.
  intros result.
  destruct (ApiMore.scan_shape self env wfp context scan_id w)
    as (k & Hk & Hreq & Hsl & Hck & _).
  exists k. repeat split; try assumption; lia.
Qed.



(** X3. An exception of [requests.post] other than a timeout or a
    connection error is never retried: after [n ≤ 5] retried failures it
    makes the call raise "request failed" at once, with [n + 1] requests
    sent, no further sleep and no file touched. *)
Theorem scan_does_not_retry_other_exceptions (self : Api) (env : Env) (wfp : string)
    (context : option string) (scan_id : option Z) (w : World) (n : nat) (msg : string) :
  (n ≤ 5)%nat →
  (∀ i, (i < n)%nat → retryable (post env (length (requests w) + i))) →
  post env (length (requests w) + n) = OtherError msg →
  let result := scan self env wfp context scan_id w in
  result.1 = Raised ("ERROR: The SCANOSS API request failed for " +:+ url self)
  ∧ length (requests result.2) = (length (requests w) + n + 1)%nat
  ∧ slept result.2 = slept w ++ repeat 5 n
  ∧ files result.2 = files w.
Proof.
  intros Hn Hfail Hother result.
  destruct (ApiMore.scan_other_error self env wfp context scan_id w n msg Hn Hfail Hother)
    as (w1 & Hscan & Hreq & Hsl & Hfi).
  subst result. rewrite Hscan. cbn. auto.
Qed.

Lemma scan_does_not_retry_other_exceptions_witness :
  let env := {| post := fun n => if (n <? 2)%nat then ConnectionError
                                 else OtherError "SSLError";
                uuid1_hex := "0123abcd"; open_error := fun _ => None |} in
  let result := scan Fixtures.api env "file=a,1,x.c" None (Some 1) (world0 0) in
  result.1 = Raised ("ERROR: The SCANOSS API request failed for " +:+ url Fixtures.api)
  ∧ length (requests result.2) = 3%nat
  ∧ slept result.2 = [5; 5]
  ∧ files result.2 = ∅.
Proof.
  intros env.
  apply (scan_does_not_retry_other_exceptions Fixtures.api env "file=a,1,x.c" None (Some 1)
           (world0 0) 2 "SSLError").
  - lia.
  - intros i Hi. destruct i as [|[|i]]; [exact I | exact I | lia].
  - reflexivity.
Defined.

(** X4. [scan] never touches a file other than the diagnostic one: a
    file whose content differs after the call is [bad_json_file] for the
    identifier and the clock at the end of the call, it could be opened,
    and the call returned [None]. So a call that raises or returns a
    result leaves every file as it was. *)
Theorem scan_touches_only_the_diagnostic_file (self : Api) (env : Env) (wfp : string)
    (context : option string) (scan_id : option Z) (w : World) :
  let result := scan self env wfp context scan_id w in
  (∀ name, files result.2 !! name ≠ files w !! name →
     result.1 = Returned None
     ∧ name = bad_json_file scan_id (clock result.2)
     ∧ open_error env name = None)
  ∧ (result.1 ≠ Returned None → files result.2 = files w).
Proof.
  intros result.
  destruct (ApiMore.scan_shape self env wfp context scan_id w) as (k & _ & _ & _ & _ & H & _).
  fold result in H. split; [exact H |].
  intros Hsome. apply map_eq. intros name.
  destruct (decide (files result.2 !! name = files w !! name)) as [|Hne]; [assumption |].
  destruct (H name Hne) as [Hnone _]. contradiction.
Qed.

Lemma scan_touches_only_the_diagnostic_file_witness :
  let w := write_file "results.json" "{}" (world0 1000) in
  let result := scan Fixtures.api Fixtures.service_garbled "file=a,1,x.c" None (Some 7) w in
  files result.2 !! "results.json" = Some "{}"
  ∧ files (scan Fixtures.api Fixtures.service_down "file=a,1,x.c" None (Some 7) w).2
    = files w.
Proof.
  intros w result. split.
  - destruct (decide (files result.2 !! "results.json" = files w !! "results.json"))
      as [Heq | Hne]; [rewrite Heq; reflexivity |].
    destruct (proj1 (scan_touches_only_the_diagnostic_file Fixtures.api
                       Fixtures.service_garbled "file=a,1,x.c" None (Some 7) w)
                "results.json" Hne) as (_ & Hname & _).
    vm_compute in Hname. discriminate Hname.
  - apply (proj2 (scan_touches_only_the_diagnostic_file Fixtures.api Fixtures.service_down
                    "file=a,1,x.c" None (Some 7) w)).
    vm_compute. discriminate.
Defined.

(** X5. The constructor of the client fails exactly when an SBOM path is
    given (not empty) and that file cannot be read. A client it builds has
    a non-empty URL and a non-empty format; without an SBOM path it has no
    SBOM and the scan type it was given; with one it holds the content of
    the file and a non-empty scan type ([identify] when none was given);
    it has the [X-Session] header exactly when an API key is given. *)
Theorem init_builds_a_usable_client (environ : string → option string)
    (read_file : string → option string)
    (scan_type sbom_path scan_format flags url api_key : option string)
    (debug trace quiet : bool) (t : Z) :
  let made := ScanossApi.__init__ environ read_file scan_type sbom_path scan_format flags
                url api_key debug trace quiet t in
  (made = None ↔
     ∃ path, sbom_path = Some path ∧ path ≠ EmptyString ∧ read_file path = None)
  ∧ (∀ api, made = Some api →
       ScanossApi.url api ≠ EmptyString
       ∧ ScanossApi.scan_format api ≠ EmptyString
       ∧ (Py.truthy_opt sbom_path = false →
            sbom api = None ∧ ScanossApi.scan_type api = scan_type)
       ∧ (Py.truthy_opt sbom_path = true →
            sbom api = read_file (default EmptyString sbom_path)
            ∧ Py.truthy_opt (ScanossApi.scan_type api) = true)
       ∧ headers api = (if Py.truthy_opt api_key
                        then [("X-Session", default EmptyString api_key)] else [])).
Proof.
  intros made. split; [apply ApiMore.init_fails_iff | apply ApiMore.init_fields].
Qed.

Lemma init_builds_a_usable_client_witness :
  let read_file := fun path => if String.eqb path "sbom.json" then Some "{}" else None in
  (∃ api, ScanossApi.__init__ (fun _ => None) read_file None (Some "sbom.json") None None
            None None false false false 120 = Some api
          ∧ ScanossApi.scan_type api = Some "identify" ∧ sbom api = Some "{}")
  ∧ ScanossApi.__init__ (fun _ => None) read_file None (Some "missing.json") None None
      None None false false false 120 = None.
Proof.
  intros read_file. split.
  - eexists. split; [reflexivity |]. split; reflexivity.
  - apply (proj1 (init_builds_a_usable_client (fun _ => None) read_file None
                    (Some "missing.json") None None None None false false false 120)).
    exists "missing.json". split; [reflexivity | split; [discriminate | reflexivity]].
Defined.

#[local] Set Warnings "-clear-no-such-hyp".

(** X6. Every request of a client built by the constructor carries a
    [format] field, which is not empty, and it carries [type] and
    [assets] exactly when the SBOM that was loaded is not empty, the type
    being a non-empty string and the assets the content of the SBOM. *)
Theorem built_client_sends_format_and_sbom (environ : string → option string)
    (read_file : string → option string)
    (scan_type sbom_path scan_format flags url api_key : option string)
    (debug trace quiet : bool) (t : Z) (api : Api) (env : Env) (wfp : string)
    (context : option string) :
  ScanossApi.__init__ environ read_file scan_type sbom_path scan_format flags url api_key
    debug trace quiet t = Some api →
  let data := req_data (request_of api env wfp context) in
  ("format", Some (ScanossApi.scan_format api)) ∈ data
  ∧ ScanossApi.scan_format api ≠ EmptyString
  ∧ (∀ ty, ("type", ty) ∈ data ↔
       ty = ScanossApi.scan_type api ∧ Py.truthy_opt (sbom api) = true)
  ∧ (∀ text, ("assets", text) ∈ data ↔ text = sbom api ∧ Py.truthy_opt (sbom api) = true)
  ∧ (Py.truthy_opt (sbom api) = true → Py.truthy_opt (ScanossApi.scan_type api) = true).
Proof.
  intros Hmade data.
  destruct (ApiMore.init_fields environ read_file scan_type sbom_path scan_format flags url
              api_key debug trace quiet t api Hmade) as (_ & Hfmt & Hno & Hyes & _).
  assert (Htruthy : Py.truthy (ScanossApi.scan_format api) = true)
    by (destruct (ScanossApi.scan_format api); [congruence | reflexivity]).
  subst data. cbn. unfold build_form_data. rewrite Htruthy.
  split; [| split; [exact Hfmt |]].
  { apply elem_of_app. right. apply elem_of_app. left. apply list_elem_of_singleton.
    reflexivity. }
  assert (Hsbom : Py.truthy_opt (sbom api) = true → Py.truthy_opt (ScanossApi.scan_type api) = true).
  { intros Hs. destruct (Py.truthy_opt sbom_path) eqn:Hp; [now apply Hyes |].
    destruct (Hno eq_refl) as [Hnone _]. rewrite Hnone in Hs. discriminate. }
  split; [| split; [| exact Hsbom]].
  - clear. intros ty. destruct (Py.truthy_opt (sbom api)); destruct (Py.truthy_opt (ScanossApi.flags api));
      destruct (Py.truthy_opt context); cbn;
      rewrite ?elem_of_cons, ?elem_of_nil; naive_solver.
  - clear. intros text. destruct (Py.truthy_opt (sbom api)); destruct (Py.truthy_opt (ScanossApi.flags api));
      destruct (Py.truthy_opt context); cbn;
      rewrite ?elem_of_cons, ?elem_of_nil; naive_solver.
Qed.

#[local] Set Warnings "clear-no-such-hyp".

Lemma built_client_sends_format_and_sbom_witness :
  let read_file := fun path => if String.eqb path "sbom.json" then Some "{}" else None in
  ∃ api, ScanossApi.__init__ (fun _ => None) read_file None (Some "sbom.json") None None
           None None false false false 120 = Some api
         ∧ ("format", Some "plain")
           ∈ req_data (request_of api Fixtures.service_up "file=a,1,x.c" None)
         ∧ ("type", Some "identify")
           ∈ req_data (request_of api Fixtures.service_up "file=a,1,x.c" None).
Proof.
  intros read_file. eexists. split; [reflexivity |].
  match goal with
  | |- context [request_of ?api _ _ _] =>
      pose proof (built_client_sends_format_and_sbom (fun _ => None) read_file None
                    (Some "sbom.json") None None None None false false false 120 api
                    Fixtures.service_up "file=a,1,x.c" None eq_refl) as H
  end.
  cbv zeta in H. destruct H as (Hformat & _ & Htype & _).
  split; [exact Hformat |]. apply Htype. split; reflexivity.
Defined.

(** X7. Two workers with different non-zero identifiers never name the
    same diagnostic file at the same second. *)
Theorem diagnostic_files_of_two_workers_differ (a b ctime : Z) :
  a ≠ 0 → b ≠ 0 → a ≠ b →
  bad_json_file (Some a) ctime ≠ bad_json_file (Some b) ctime.
Proof.
  intros Ha Hb Hab H. unfold bad_json_file, truthy_id, str_of_id in H.
  apply Z.eqb_neq in Ha, Hb. rewrite Ha, Hb in H. cbn [negb] in H.
  apply (inj (String.append "bad_json-")) in H.
  apply ApiMore.append_inj_r in H. apply ApiMore.str_of_int_inj in H. contradiction.
Qed.

Lemma diagnostic_files_of_two_workers_differ_witness :
  bad_json_file (Some 1) 1700000000 ≠ bad_json_file (Some 2) 1700000000.
Proof. apply diagnostic_files_of_two_workers_differ; lia. Defined.

(** ** Further properties of the code: the workers and the coordinator *)

(** X8. The workers take the payloads in the order in which [queue_add]
    put them: in every state of a run the payloads taken so far, in the
    order of the [get]s, followed by the payloads still in the queue, are
    the payloads that were added; so [get_queue_size] is what was added
    less what was taken. *)
Theorem payloads_are_taken_in_the_order_added (isatty : bool) (w : World) (api : Api)
    (debug trace quiet : bool) (t : Z) (wait : bool) (ws : list string) (evs : list Event)
    (s : System) :
  exec evs (run wait (load ws (fresh isatty w api debug trace quiet t))) = Some s →
  ws = dequeued (trail s) ++ queue (inputs (self s))
  ∧ dequeued (trail s) = take (length (dequeued (trail s))) ws
  ∧ get_queue_size s = Z.of_nat (length ws) - Z.of_nat (length (dequeued (trail s))).
Proof.
  intros Hexec. pose proof (inv_queue _ _ _ _ (ThreadFacts.run_Inv _ _ _ _ _ _ _ _ _ _ _ Hexec))
    as Hq.
  split; [exact Hq |]. split.
  - rewrite Hq at 1. now rewrite take_app_length.
  - unfold get_queue_size, qsize. apply (f_equal length) in Hq.
    rewrite length_app in Hq. lia.
Qed.

Lemma payloads_are_taken_in_the_order_added_witness :
  let s := Fixtures.outcome Fixtures.mixed_run
             (Fixtures.start 1 [Fixtures.payload_a; Fixtures.payload_b]) in
  [Fixtures.payload_a; Fixtures.payload_b] = dequeued (trail s) ++ queue (inputs (self s)).
Proof.
  intros s.
  assert (Hexec : exec Fixtures.mixed_run
                    (Fixtures.start 1 [Fixtures.payload_a; Fixtures.payload_b]) = Some s)
    by (vm_compute; reflexivity).
  exact (proj1 (payloads_are_taken_in_the_order_added false (world0 0) Fixtures.api false
                  false false 1 true [Fixtures.payload_a; Fixtures.payload_b]
                  Fixtures.mixed_run s Hexec)).
Defined.



(** X10. The error flag is raised for a call of [scan] that raised and
    for a thread that could not be started, and for nothing else: in every
    state of a run the payloads for which a worker recorded an error are
    among those whose call raised; once [run] (with [wait]) has returned
    they are exactly those, and the value returned is false exactly when
    some call raised or a thread could not be started. *)
Theorem run_fails_exactly_for_a_raised_call_or_a_failed_start (isatty : bool) (w : World)
    (api : Api) (debug trace quiet : bool) (t : Z) (wait : bool) (ws : list string)
    (evs : list Event) (s : System) :
  exec evs (run wait (load ws (fresh isatty w api debug trace quiet t))) = Some s →
  (length (failed (trail s)) ≤ length (raised (trail s)))%nat
  ∧ (_errors (self s) = true → raised (trail s) ≠ [] ∨ start_failed (trail s) = true)
  ∧ (∀ result, wait = true → main s = RunReturned result →
       failed (trail s) ≡ₚ raised (trail s)
       ∧ (result = false ↔ raised (trail s) ≠ [] ∨ start_failed (trail s) = true)).
Proof.
  intros Hexec.
  pose proof (ThreadFacts.run_Inv _ _ _ _ _ _ _ _ _ _ _ Hexec) as HI.
  pose proof (ThreadMore.run_Inv2 _ _ _ _ _ _ _ _ _ _ _ Hexec) as HJ.
  assert (Hle : (length (failed (trail s)) ≤ length (raised (trail s)))%nat).
  { pose proof (inv_failed _ _ HJ (fun _ => 1)) as H.
    rewrite !ThreadFacts.sumZ_one in H.
    pose proof (ThreadFacts.sumZ_nonneg (fun pc => sumZ (fun _ : string => 1) (erring pc))
                  (_threads (self s))
                  ltac:(intros pc; apply ThreadFacts.sumZ_nonneg; lia)) as Hpos.
    cbv beta in Hpos.
    remember (sumZ (fun pc => sumZ (fun _ : string => 1) (erring pc)) (_threads (self s)))
      as X. clear HeqX. lia. }
  split; [exact Hle |]. split.
  - rewrite (inv_errors _ _ _ _ HI). intros He.
    apply ThreadMore.error_recorded_split in He as [Hf | Hs]; [left | now right].
    intros Hnil. rewrite Hnil in Hle. destruct (failed (trail s)); [congruence | cbn in Hle; lia].
  - intros result -> Hret.
    destruct (ThreadFacts.returned_idle _ _ _ _ HI Hret) as (_ & _ & Hhold & ->).
    assert (Hperm : failed (trail s) ≡ₚ raised (trail s)).
    { apply ThreadFacts.sums_Permutation. intros f.
      pose proof (inv_failed _ _ HJ f) as H.
      rewrite (ThreadFacts.sumZ_all_zero (fun pc => sumZ f (erring pc))) in H; [lia |].
      eapply Forall_impl; [exact Hhold |]. cbn. intros pc Hpc.
      now rewrite (proj2 (ThreadMore.holding_nil_idle pc Hpc)). }
    split; [exact Hperm |].
    rewrite (inv_errors _ _ _ _ HI), negb_false_iff, ThreadMore.error_recorded_split.
    assert (Hnil : failed (trail s) ≠ [] ↔ raised (trail s) ≠ []).
    { split; intros H1 H2; apply H1.
      - rewrite H2 in Hperm. now apply Permutation_nil_r in Hperm.
      - rewrite H2 in Hperm. now apply Permutation_nil in Hperm. }
    now rewrite Hnil.
Qed.

Lemma run_fails_exactly_for_a_raised_call_or_a_failed_start_witness :
  let s := Fixtures.outcome Fixtures.mixed_run
             (Fixtures.start 1 [Fixtures.payload_a; Fixtures.payload_b]) in
  failed (trail s) ≡ₚ raised (trail s).
Proof.
  intros s.
  assert (Hexec : exec Fixtures.mixed_run
                    (Fixtures.start 1 [Fixtures.payload_a; Fixtures.payload_b]) = Some s)
    by (vm_compute; reflexivity).
  assert (Hret : main s = RunReturned false) by (vm_compute; reflexivity).
  exact (proj1 (proj2 (proj2 (run_fails_exactly_for_a_raised_call_or_a_failed_start false
                                (world0 0) Fixtures.api false false false 1 true
                                [Fixtures.payload_a; Fixtures.payload_b]
                                Fixtures.mixed_run s Hexec)) false eq_refl Hret)).
Defined.

(** X11. No worker thread is ended by an exception: [task_done] is never
    called more often than [put] was, so in every state of a run no thread
    has died, the counter [unfinished_tasks] is not negative, and no more
    payloads are marked done than were added. *)
Theorem no_worker_dies (isatty : bool) (w : World) (api : Api)
    (debug trace quiet : bool) (t : Z) (wait : bool) (ws : list string) (evs : list Event)
    (s : System) :
  exec evs (run wait (load ws (fresh isatty w api debug trace quiet t))) = Some s →
  Forall (fun pc => is_dead pc = false) (_threads (self s))
  ∧ 0 ≤ unfinished_tasks (inputs (self s))
  ∧ (length (marked_done (trail s)) ≤ length ws)%nat.
Proof.
  intros Hexec.
  pose proof (ThreadFacts.run_Inv _ _ _ _ _ _ _ _ _ _ _ Hexec) as HI.
  pose proof (ThreadMore.run_Inv2 _ _ _ _ _ _ _ _ _ _ _ Hexec) as HJ.
  assert (Hu : 0 ≤ unfinished_tasks (inputs (self s))).
  { rewrite (ThreadFacts.Inv_unfinished _ _ _ _ HI).
    pose proof (ThreadFacts.sumZ_nonneg (fun pc => Z.of_nat (length (holding pc)))
                  (_threads (self s)) ThreadFacts.holding_nonneg) as Hpos.
    remember (sumZ (fun pc => Z.of_nat (length (holding pc))) (_threads (self s))) as X.
    clear HeqX. lia. }
  split; [| split; [exact Hu |]].
  - pose proof (ThreadFacts.sumZ_zero (fun pc => if is_dead pc then 1 else 0)
                  (_threads (self s)) ltac:(intros []; cbn; lia) (inv_alive _ _ HJ)) as Hall.
    eapply Forall_impl; [exact Hall |]. cbn. intros pc Hpc.
    destruct (is_dead pc); [discriminate | reflexivity].
  - pose proof (inv_unfinished _ _ _ _ HI). lia.
Qed.

Lemma no_worker_dies_witness :
  let s := Fixtures.outcome Fixtures.failing_run (Fixtures.start 1 [Fixtures.payload_a]) in
  Forall (fun pc => is_dead pc = false) (_threads (self s)).
Proof.
  intros s.
  assert (Hexec : exec Fixtures.failing_run (Fixtures.start 1 [Fixtures.payload_a]) = Some s)
    by (vm_compute; reflexivity).
  exact (proj1 (no_worker_dies false (world0 0) Fixtures.api false false false 1 true
                  [Fixtures.payload_a] Fixtures.failing_run s Hexec)).
Defined.

(** X12. A worker leaves its loop only after [complete] has set the stop
    event, and [complete] sets it only after [inputs.join()] has returned:
    in every state of a run in which the stop event is set or some thread
    has finished, [run] was entered with [wait], the calling thread is past
    [_stop_event.set()], the queue is empty and no task is unfinished.
    Within a run entered without [wait] no worker ever finishes. *)
Theorem workers_finish_only_after_the_queue_is_done (isatty : bool) (w : World) (api : Api)
    (debug trace quiet : bool) (t : Z) (wait : bool) (ws : list string) (evs : list Event)
    (s : System) :
  exec evs (run wait (load ws (fresh isatty w api debug trace quiet t))) = Some s →
  (_stop_event (self s) = true ∨ Finished ∈ _threads (self s) →
     wait = true ∧ _stop_event (self s) = true ∧ stopped (main s) = true
     ∧ queue (inputs (self s)) = [] ∧ unfinished_tasks (inputs (self s)) = 0
     ∧ dequeued (trail s) = ws)
  ∧ (wait = false → Finished ∉ _threads (self s)).
Proof.
  intros Hexec.
  pose proof (ThreadFacts.run_Inv _ _ _ _ _ _ _ _ _ _ _ Hexec) as HI.
  pose proof (ThreadMore.run_Inv2 _ _ _ _ _ _ _ _ _ _ _ Hexec) as HJ.
  assert (Hfin : Finished ∈ _threads (self s) → _stop_event (self s) = true).
  { intros Hin. destruct (_stop_event (self s)) eqn:Hstop; [reflexivity |].
    pose proof (ThreadFacts.sumZ_zero (fun pc => if has_finished pc then 1 else 0)
                  (_threads (self s)) ltac:(intros []; cbn; lia)
                  (inv_finished _ _ HJ Hstop)) as Hall.
    rewrite Forall_forall in Hall. specialize (Hall Finished Hin). discriminate. }
  assert (Hstop : _stop_event (self s) = true →
                  wait = true ∧ _stop_event (self s) = true ∧ stopped (main s) = true
                  ∧ queue (inputs (self s)) = [] ∧ unfinished_tasks (inputs (self s)) = 0
                  ∧ dequeued (trail s) = ws).
  { intros Hs. destruct (inv_stop _ _ HJ Hs) as [-> Hmain].
    assert (Hzero : unfinished_tasks (inputs (self s)) = 0).
    { pose proof (inv_main _ _ _ _ HI) as Hm. unfold main_ok in Hm.
      destruct (main s); try discriminate;
        [apply Hm | apply (proj1 Hm eq_refl) | apply (proj1 Hm eq_refl)]. }
    assert (Hq : queue (inputs (self s)) = []).
    { pose proof (ThreadFacts.Inv_unfinished _ _ _ _ HI) as Hu.
      pose proof (ThreadFacts.sumZ_nonneg (fun pc => Z.of_nat (length (holding pc)))
                    (_threads (self s)) ThreadFacts.holding_nonneg) as Hpos.
      apply length_zero_iff_nil.
      remember (sumZ (fun pc => Z.of_nat (length (holding pc))) (_threads (self s))) as X.
      clear HeqX. lia. }
    repeat split; try assumption.
    pose proof (inv_queue _ _ _ _ HI) as H. now rewrite Hq, app_nil_r in H. }
  split.
  - intros [Hs | Hin]; [exact (Hstop Hs) | exact (Hstop (Hfin Hin))].
  - intros -> Hin. destruct (Hstop (Hfin Hin)) as [Hwait _]. discriminate.
Qed.

Lemma workers_finish_only_after_the_queue_is_done_witness :
  let evs := Fixtures.pool_of_one ++ Fixtures.enter 0 ++ Fixtures.item_passes 0
             ++ Fixtures.complete ++ [Work 0 Fixtures.service_up] in
  let s := Fixtures.outcome evs (Fixtures.start 1 [Fixtures.payload_a]) in
  _threads (self s) = [Finished] ∧ queue (inputs (self s)) = [].
Proof.
  intros evs s.
  assert (Hexec : exec evs (Fixtures.start 1 [Fixtures.payload_a]) = Some s)
    by (vm_compute; reflexivity).
  assert (Hts : _threads (self s) = [Finished]) by (vm_compute; reflexivity).
  split; [exact Hts |].
  refine (proj1 (proj2 (proj2 (proj2 (proj1
            (workers_finish_only_after_the_queue_is_done false (world0 0) Fixtures.api false
               false false 1 true [Fixtures.payload_a] evs s Hexec) _))))).
  right. rewrite Hts. apply list_elem_of_singleton. reflexivity.
Defined.

(** X13. [run] with [wait] returns on a queue that is not empty only if
    some worker thread was started: with a thread count of zero or less, or
    when the first thread cannot be started, [inputs.join()] never returns. *)
Theorem run_returns_only_if_a_worker_was_started (isatty : bool) (w : World) (api : Api)
    (debug trace quiet : bool) (t : Z) (ws : list string) (evs : list Event) (s : System) :
  exec evs (run true (load ws (fresh isatty w api debug trace quiet t))) = Some s →
  ws ≠ [] →
  (∀ result, main s = RunReturned result → started (_threads (self s)) ≠ [])
  ∧ (∀ result, t ≤ 0 → main s ≠ RunReturned result).
Proof.
  intros Hexec Hne.
  pose proof (ThreadFacts.run_Inv _ _ _ _ _ _ _ _ _ _ _ Hexec) as HI.
  pose proof (ThreadMore.run_Inv2 _ _ _ _ _ _ _ _ _ _ _ Hexec) as HJ.
  assert (Hret : ∀ result, main s = RunReturned result → started (_threads (self s)) ≠ []).
  { intros result Hret Hnil.
    destruct (ThreadFacts.returned_all_done _ _ _ _ HI Hret) as (Hdeq & _).
    pose proof (inv_started _ _ HJ) as Hst. rewrite Hdeq in Hst. specialize (Hst Hne).
    rewrite ThreadMore.count_started_length, Hnil in Hst. cbn in Hst. lia. }
  split; [exact Hret |].
  intros result Ht Hmain. apply (Hret result Hmain).
  pose proof (ThreadFacts.Inv_threads_bound _ _ _ _ HI) as Hb. unfold pool in Hb.
  pose proof (ThreadFacts.started_length_le (_threads (self s))).
  apply length_zero_iff_nil. lia.
Qed.

Lemma run_returns_only_if_a_worker_was_started_witness :
  let s := Fixtures.outcome Fixtures.failing_run (Fixtures.start 1 [Fixtures.payload_a]) in
  started (_threads (self s)) ≠ [].
Proof.
  intros s.
  assert (Hexec : exec Fixtures.failing_run (Fixtures.start 1 [Fixtures.payload_a]) = Some s)
    by (vm_compute; reflexivity).
  assert (Hret : main s = RunReturned false) by (vm_compute; reflexivity).
  refine (proj1 (run_returns_only_if_a_worker_was_started false (world0 0) Fixtures.api
                   false false false 1 [Fixtures.payload_a] Fixtures.failing_run s Hexec _)
            false Hret).
  discriminate.
Defined.

(** X14. What a run sends: every request sent since the object was made
    goes to the URL of the client, with its headers, its timeout and its
    form data, and carries one of the payloads that were added; each call
    of [scan] accounts for at least one and at most six of them, so a run
    over [n] payloads sends at most [6 * n] requests; the requests sent
    before are left as they were. *)
Theorem run_sends_one_to_six_requests_per_payload (isatty : bool) (w : World) (api : Api)
    (debug trace quiet : bool) (t : Z) (wait : bool) (ws : list string) (evs : list Event)
    (s : System) :
  exec evs (run wait (load ws (fresh isatty w api debug trace quiet t))) = Some s →
  let sent := sent_since w s in
  requests (world s) = requests w ++ sent
  ∧ Forall (request_for api ws) sent
  ∧ (length (posted (trail s)) ≤ length sent ≤ 6 * length (posted (trail s)))%nat
  ∧ (length sent ≤ 6 * length ws)%nat.
Proof.
  intros Hexec sent.
  pose proof (ThreadFacts.run_Inv _ _ _ _ _ _ _ _ _ _ _ Hexec) as HI.
  destruct (ThreadMore.start_world isatty w api debug trace quiet t wait ws)
    as (Hw0 & Hapi & Hp0).
  destruct (ThreadMore.exec_requests ws wait (Z.min t 30) evs _ _
              (ThreadFacts.start_Inv isatty w api debug trace quiet t wait ws) Hexec)
    as (_ & l & p & Hl & Hp & Hall & Hlen).
  rewrite Hw0 in Hl. rewrite Hapi in Hall. rewrite Hp0 in Hp. cbn in Hp.
  assert (Hsent : sent = l).
  { subst sent. unfold sent_since. rewrite Hl. apply drop_app_length. }
  rewrite Hsent, Hp. split; [exact Hl |]. split; [exact Hall |]. split; [exact Hlen |].
  assert (Hposted : (length p ≤ length ws)%nat).
  { pose proof (inv_posted _ _ _ _ HI (fun _ => 1)) as H.
    rewrite !ThreadFacts.sumZ_one, Hp in H.
    pose proof (ThreadFacts.sumZ_nonneg (fun pc => sumZ (fun _ : string => 1) (scanning pc))
                  (_threads (self s))
                  ltac:(intros pc; apply ThreadFacts.sumZ_nonneg; lia)) as Hpos.
    cbv beta in Hpos.
    pose proof (f_equal length (inv_queue _ _ _ _ HI)) as Hq. rewrite length_app in Hq.
    remember (sumZ (fun pc => sumZ (fun _ : string => 1) (scanning pc)) (_threads (self s)))
      as X. clear HeqX. lia. }
  lia.
Qed.

Lemma run_sends_one_to_six_requests_per_payload_witness :
  let s := Fixtures.outcome Fixtures.mixed_run
             (Fixtures.start 1 [Fixtures.payload_a; Fixtures.payload_b]) in
  Forall (request_for Fixtures.api [Fixtures.payload_a; Fixtures.payload_b])
         (sent_since (world0 0) s)
  ∧ length (sent_since (world0 0) s) = 7%nat.
Proof.
  intros s.
  assert (Hexec : exec Fixtures.mixed_run
                    (Fixtures.start 1 [Fixtures.payload_a; Fixtures.payload_b]) = Some s)
    by (vm_compute; reflexivity).
  split; [| vm_compute; reflexivity].
  exact (proj1 (proj2 (run_sends_one_to_six_requests_per_payload false (world0 0)
                         Fixtures.api false false false 1 true
                         [Fixtures.payload_a; Fixtures.payload_b] Fixtures.mixed_run s
                         Hexec))).
Defined.

(** X15. Once [run] (with [wait]) has returned, what the caller reads is
    final: whatever the worker threads, which may still be running, do
    afterwards, the responses, the error flag, the progress counter and
    bar, the queue, the record of the run, the requests sent and the files
    stay as they are, and no thread is added. *)
Theorem results_are_final_once_run_has_returned (isatty : bool) (w : World) (api : Api)
    (debug trace quiet : bool) (t : Z) (ws : list string) (evs : list Event) (s : System)
    (result : bool) (evs' : list Event) (s' : System) :
  exec evs (run true (load ws (fresh isatty w api debug trace quiet t))) = Some s →
  main s = RunReturned result →
  exec evs' s = Some s' →
  main s' = RunReturned result
  ∧ responses s' = responses s
  ∧ _errors (self s') = _errors (self s)
  ∧ _bar_count (self s') = _bar_count (self s) ∧ bar (self s') = bar (self s)
  ∧ inputs (self s') = inputs (self s)
  ∧ trail s' = trail s
  ∧ requests (world s') = requests (world s) ∧ files (world s') = files (world s)
  ∧ length (_threads (self s')) = length (_threads (self s)).
Proof.
  intros Hexec Hret Hexec'.
  pose proof (ThreadFacts.run_Inv _ _ _ _ _ _ _ _ _ _ _ Hexec) as HI.
  destruct (ThreadMore.exec_at_rest evs' s s' (ThreadMore.returned_at_rest _ _ _ _ HI Hret)
              Hexec') as (_ & Ht & Hm & Hi & Ho & He & Hc & Hb & Hr & Hf & Hn).
  unfold responses. rewrite Hm, Ho. done.
Qed.

Lemma results_are_final_once_run_has_returned_witness :
  let s := Fixtures.outcome Fixtures.mixed_run
             (Fixtures.start 1 [Fixtures.payload_a; Fixtures.payload_b]) in
  let s' := Fixtures.outcome [Work 0 Fixtures.service_up] s in
  responses s' = responses s ∧ _threads (self s) = [AtLoop] ∧ _threads (self s') = [Finished].
Proof.
  intros s s'.
  assert (Hexec : exec Fixtures.mixed_run
                    (Fixtures.start 1 [Fixtures.payload_a; Fixtures.payload_b]) = Some s)
    by (vm_compute; reflexivity).
  assert (Hret : main s = RunReturned false) by (vm_compute; reflexivity).
  assert (Hexec' : exec [Work 0 Fixtures.service_up] s = Some s')
    by (vm_compute; reflexivity).
  split; [| split; vm_compute; reflexivity].
  exact (proj1 (proj2 (results_are_final_once_run_has_returned false (world0 0) Fixtures.api
                         false false false 1 [Fixtures.payload_a; Fixtures.payload_b]
                         Fixtures.mixed_run s false [Work 0 Fixtures.service_up] s'
                         Hexec Hret Hexec'))).
Defined.


(** X17. [__count_files_in_wfp] is additive over payloads joined by a
    newline, it is never negative nor more than the number of lines, and
    the sum of the counts of a list of payloads is the count of the
    payloads joined by newlines. *)
Theorem count_files_is_additive :
  (∀ a b, __count_files_in_wfp (Some (a +:+ String Py.newline b))
          = __count_files_in_wfp (Some a) + __count_files_in_wfp (Some b))
  ∧ (∀ w, 0 ≤ __count_files_in_wfp (Some w)
            ≤ Z.of_nat (length (Py.split Py.newline w)))
  ∧ (∀ ws, file_count ws = __count_files_in_wfp (Some (Py.join Py.newline ws))).
Proof.
  split; [exact ThreadMore.count_files_app |]. split; [| exact ThreadMore.file_count_join].
  intros w. rewrite ThreadFacts.count_files_fold. apply ThreadMore.fold_count_line_bounds.
Qed.
